(** * ExCore real-time adapters: SSEManager and WebSocketManager

    A shallow embedding of the two connection managers of
    [packages/core/src/adapters/realtime] (SSEManager.ts and the
    WebSocketManager source), together with the properties of their
    connection registry, publishers, frame encoders and inbound dispatcher.

    Conventions of the embedding.
    - A JavaScript [Map] is an insertion-ordered association list and a
      [Set] an insertion-ordered list: the publishers iterate them, and the
      point at which an iteration is abandoned depends on that order.
    - A method that may throw and that touches mutable state is a function
      [S -> Outcome A * S]: the outcome is a returned value or a thrown
      value, and the state is the one left behind in either case.
    - The transport callbacks [sendFn] and [closeFn] handed to
      [addConnection] are arbitrary functions over a world [W] outside the
      manager (sockets, clock); they may throw.  They do not call back into
      the manager.  Message handlers act on the registry and the world.
    - [JSON.parse] and [JSON.stringify] are built-ins of the language, not
      code of the repository: they are parameters of the development.
      The values of the development are trees of integers, strings,
      booleans, [null] and [undefined], which [JSON.stringify] takes.
    - A string is held as its UTF-8 bytes; [s.length] counts UTF-16 code
      units and is [utf16_length].
    - Timers ([setInterval]) are not modelled. *)

From Stdlib Require Import String List ZArith Lia Bool DecimalString.
Import ListNotations.
Open Scope string_scope.
Open Scope list_scope.

Set Implicit Arguments.
Set Warnings "-register-all".
Set Warnings "-notation-overridden".
Set Warnings "-notation-for-abbreviation".


(** ** JavaScript values that cross the API *)

(** Tree-shaped values as produced by [JSON.parse] or written as object
    literals by callers ([payload: unknown], [data: string | object]). *)
Inductive JsValue : Type :=
| JsUndefined
| JsNull
| JsBool (b : bool)
| JsNumber (z : Z)
| JsString (s : string)
| JsArray (items : list JsValue)
| JsObject (fields : list (string * JsValue)).

(** Truthiness as used by [if (x)] and [!x]. *)
Definition truthy (v : JsValue) : bool :=
  match v with
  | JsUndefined | JsNull => false
  | JsBool b => b
  | JsNumber z => negb (z =? 0)%Z
  | JsString s => negb (s =? "")
  | JsArray _ | JsObject _ => true
  end.

(** [if (userId)] on an optional string: the branch is taken, with the
    string in hand, when it is present and not empty. *)
Definition truthy_string (o : option string) : option string :=
  match o with
  | Some s => if s =? "" then None else Some s
  | None => None
  end.

(** [if (event.retry)] on an optional number. *)
Definition truthy_number (o : option Z) : option Z :=
  match o with
  | Some z => if (z =? 0)%Z then None else Some z
  | None => None
  end.

(** Decimal rendering of an integer inside a template literal. *)
Definition Number_toString (z : Z) : string :=
  NilZero.string_of_int (Z.to_int z).

(** [s.length].  A string is held as its UTF-8 bytes, as a string
    literal is; its [length] is its number of UTF-16 code units: one for
    a character below U+10000 (a sequence of one, two or three bytes),
    two for a character above (a sequence of four bytes). *)
Definition code_units (byte : Ascii.ascii) : nat :=
  match byte with
  | Ascii.Ascii _ _ _ _ b4 b5 b6 b7 =>
      if negb b7 then 1
      else if negb b6 then 0
      else if b5 && b4 then 2
      else 1
  end.

Fixpoint utf16_length (s : string) : nat :=
  match s with
  | EmptyString => 0
  | String byte rest => code_units byte + utf16_length rest
  end.

(** What [JSON.parse] does with a text: it returns a value, or throws a
    [SyntaxError] with a message. *)
Inductive Parsed : Type :=
| ParseOk (v : JsValue)
| ParseFail (message : string).

(** ** Thrown values and outcomes *)

Inductive ErrorCtor : Type := Error | TypeError | SyntaxError.

(** What a [catch (error)] clause may receive.  Any value can be thrown;
    the only thing the code does with a caught value is to read its
    [message] and to serialize what it read inside an error frame, and
    the values are told apart by that:
    - an error object with a string [message] ([new Error(m)], the
      [SyntaxError] of [JSON.parse], a [TypeError] of the engine);
    - [null] and [undefined], on which a property read throws;
    - a value that has no [message] (a string, a number, [{}]);
    - a value whose [message] is some other value that [JSON.stringify]
      takes;
    - a value whose [message] cannot be reported: reading it throws (a
      getter), or [JSON.stringify] throws on what was read (a BigInt, a
      cycle); [e] is what is thrown then. *)
Inductive Thrown : Type :=
| ThrownError (ctor : ErrorCtor) (message : string)
| ThrownNull
| ThrownUndefined
| ThrownPlain
| ThrownWith (message : JsValue)
| ThrownOpaque (e : Thrown).

Inductive Outcome (A : Type) : Type :=
| Returned (a : A)
| Threw (e : Thrown).
Arguments Returned {A} a.
Arguments Threw {A} e.

Definition returned {A} (o : Outcome A) : bool :=
  match o with Returned _ => true | Threw _ => false end.

(** State-and-exception monad. *)
Definition M (S A : Type) : Type := S -> Outcome A * S.

Definition ret {S A} (a : A) : M S A := fun s => (Returned a, s).

Definition throw {S A} (e : Thrown) : M S A := fun s => (Threw e, s).

Definition bind {S A B} (c : M S A) (k : A -> M S B) : M S B :=
  fun s =>
    match c s with
    | (Returned a, s') => k a s'
    | (Threw e, s') => (Threw e, s')
    end.

(** [try { c } catch (error) { h error }] *)
Definition try_catch {S A} (c : M S A) (h : Thrown -> M S A) : M S A :=
  fun s =>
    match c s with
    | (Returned a, s') => (Returned a, s')
    | (Threw e, s') => h e s'
    end.

Declare Scope js_scope.
Delimit Scope js_scope with js.
Notation "x <- c ;; k" := (bind c (fun x => k))
  (at level 61, c at next level, right associativity) : js_scope.
Notation "c ;;; k" := (bind c (fun _ => k))
  (at level 61, right associativity) : js_scope.
Open Scope js_scope.

(** ** Map and Set *)

Module JsMap.
Section Defs.
Context {V : Type}.

Definition t : Type := list (string * V).

Definition empty : t := [].

Fixpoint get (k : string) (m : t) : option V :=
  match m with
  | [] => None
  | (k', v) :: m' => if k =? k' then Some v else get k m'
  end.

Definition has (k : string) (m : t) : bool :=
  match get k m with Some _ => true | None => false end.

Fixpoint replace (k : string) (v : V) (m : t) : t :=
  match m with
  | [] => []
  | (k', v') :: m' =>
      if k =? k' then (k', v) :: m' else (k', v') :: replace k v m'
  end.

(** [m.set(k, v)]: an existing key keeps its position, a new key goes
    to the end. *)
Definition set (k : string) (v : V) (m : t) : t :=
  if has k m then replace k v m else m ++ [(k, v)].

(** [m.delete(k)].  A map built from [empty] by [set] holds a key once, so
    dropping the entries of [k] is dropping its entry. *)
Definition delete (k : string) (m : t) : t :=
  filter (fun kv => negb (k =? fst kv)) m.

Definition keys (m : t) : list string := map fst m.

Definition values (m : t) : list V := map snd m.

Definition size (m : t) : nat := length m.
End Defs.
Arguments t V : clear implicits.
End JsMap.

Module JsSet.
Definition t : Type := list string.

Definition empty : t := [].

Definition has (x : string) (s : t) : bool := existsb (String.eqb x) s.

Definition add (x : string) (s : t) : t :=
  if has x s then s else s ++ [x].

Definition delete (x : string) (s : t) : t :=
  filter (fun y => negb (x =? y)) s.

Definition size (s : t) : nat := length s.
End JsSet.

(** ** The connection registry shared by both managers

    [SSEManager] and [WebSocketManager] carry the same three indices and
    the same text for [addConnection], [removeConnection], the publishers
    and the counters; they differ in the message type, in the frame encoder
    behind [connection.send] ([sendEvent] / [sendMessage]) and in the
    arguments of [close]. *)

Section Registry.
Variable W : Type.
(** [Date.now()] / [new Date()] *)
Variable Date_now : W -> Z.
Variable Msg : Type.
Variable CloseArgs : Type.

Definition SendFn : Type := string -> M W unit.
Definition CloseFn : Type := CloseArgs -> M W unit.

(** A callback that returns normally whatever it is given, and one that
    throws whatever it is given. *)
Definition never_throws {A} (f : A -> M W unit) : Prop :=
  forall a w, returned (fst (f a w)) = true.

Definition always_throws {A} (f : A -> M W unit) : Prop :=
  forall a w, returned (fst (f a w)) = false.

(** The private encoder: [sendEvent(sendFn, event)] or
    [sendMessage(sendFn, message)]. *)
Variable sendFrame : SendFn -> Msg -> M W unit.

(** The connection object.  Its [send] and [close] closures are kept as
    the variables they capture ([sendFn], [closeFn]; the captured
    [connectionId] is [id]) and are run by [send] and [close] below. *)
Record Connection : Type := {
  id : string;
  userId : option string;
  channel : option string;
  connectedAt : Z;
  sendFn : SendFn;
  closeFn : CloseFn
}.

Record Registry : Type := {
  maxConnectionsPerUser : Z;
  connections : JsMap.t Connection;
  userConnections : JsMap.t JsSet.t;
  channelConnections : JsMap.t JsSet.t
}.

Definition State : Type := (Registry * W)%type.

(** The registry a constructor leaves behind. *)
Definition new_registry (maxPerUser : Z) : Registry :=
  {| maxConnectionsPerUser := maxPerUser;
     connections := JsMap.empty;
     userConnections := JsMap.empty;
     channelConnections := JsMap.empty |}.

Definition liftW {A} (c : M W A) : M State A :=
  fun st =>
    match c (snd st) with
    | (o, w') => (o, (fst st, w'))
    end.

Definition getConnectionCount (r : Registry) : nat :=
  JsMap.size (connections r).

Definition getUserConnectionCount (r : Registry) (u : string) : nat :=
  match JsMap.get u (userConnections r) with
  | Some s => JsSet.size s
  | None => 0
  end.

Definition getChannelConnectionCount (r : Registry) (c : string) : nat :=
  match JsMap.get c (channelConnections r) with
  | Some s => JsSet.size s
  | None => 0
  end.

Definition getConnection (r : Registry) (connectionId : string)
  : option Connection :=
  JsMap.get connectionId (connections r).

(** The set stored under [key], or the empty set. *)
Definition set_at (key : string) (m : JsMap.t JsSet.t) : JsSet.t :=
  match JsMap.get key m with Some s => s | None => JsSet.empty end.

(** [if (!m.has(key)) m.set(key, new Set()); m.get(key)!.add(id);] *)
Definition track (key connectionId : string) (m : JsMap.t JsSet.t)
  : JsMap.t JsSet.t :=
  let m1 := if JsMap.has key m then m else JsMap.set key JsSet.empty m in
  match JsMap.get key m1 with
  | Some s => JsMap.set key (JsSet.add connectionId s) m1
  | None => m1
  end.

(** [const s = m.get(key); if (s) { s.delete(id); if (s.size === 0)
    m.delete(key); }] *)
Definition untrack (key connectionId : string) (m : JsMap.t JsSet.t)
  : JsMap.t JsSet.t :=
  match JsMap.get key m with
  | Some s =>
      let s' := JsSet.delete connectionId s in
      if (JsSet.size s' =? 0)%nat then JsMap.delete key m
      else JsMap.set key s' m
  | None => m
  end.

Definition quota_message (maxPerUser : Z) (u : string) : string :=
  ("Maximum connections (" ++ Number_toString maxPerUser
     ++ ") exceeded for user " ++ u)%string.

(** [new Error(`Maximum connections (...) exceeded for user ...`)] *)
Definition quota_error (r : Registry) (u : string) : Thrown :=
  ThrownError Error (quota_message (maxConnectionsPerUser r) u).

(** The admission test of [addConnection]. *)
Definition over_quota (r : Registry) (userId : option string)
  : option string :=
  match truthy_string userId with
  | Some u =>
      if (Z.of_nat (getUserConnectionCount r u)
            >=? maxConnectionsPerUser r)%Z
      then Some u else None
  | None => None
  end.

Definition addConnection (connectionId : string) (sendFn0 : SendFn)
    (closeFn0 : CloseFn) (userId0 channel0 : option string)
  : M State Connection :=
  fun st =>
    let (r, w) := st in
    match over_quota r userId0 with
    | Some u => (Threw (quota_error r u), st)
    | None =>
        let connection :=
          {| id := connectionId; userId := userId0; channel := channel0;
             connectedAt := Date_now w;
             sendFn := sendFn0; closeFn := closeFn0 |} in
        let conns := JsMap.set connectionId connection (connections r) in
        let users :=
          match truthy_string userId0 with
          | Some u => track u connectionId (userConnections r)
          | None => userConnections r
          end in
        let chans :=
          match truthy_string channel0 with
          | Some c => track c connectionId (channelConnections r)
          | None => channelConnections r
          end in
        (Returned connection,
         ({| maxConnectionsPerUser := maxConnectionsPerUser r;
             connections := conns;
             userConnections := users;
             channelConnections := chans |}, w))
    end.

(** [removeConnection] never throws and never touches the world: it is
    a function on registries. *)
Definition removeConnection (connectionId : string) (r : Registry)
  : Registry :=
  match JsMap.get connectionId (connections r) with
  | None => r
  | Some connection =>
      let users :=
        match truthy_string (userId connection) with
        | Some u => untrack u connectionId (userConnections r)
        | None => userConnections r
        end in
      let chans :=
        match truthy_string (channel connection) with
        | Some c => untrack c connectionId (channelConnections r)
        | None => channelConnections r
        end in
      {| maxConnectionsPerUser := maxConnectionsPerUser r;
         connections := JsMap.delete connectionId (connections r);
         userConnections := users;
         channelConnections := chans |}
  end.

(** [connection.send(message)] *)
Definition send (c : Connection) (message : Msg) : M State unit :=
  liftW (sendFrame (sendFn c) message).

(** [connection.close(args)]: [closeFn(args); this.removeConnection(id)] *)
Definition close (c : Connection) (args : CloseArgs) : M State unit :=
  liftW (closeFn c args) ;;;
  (fun st => (Returned tt, (removeConnection (id c) (fst st), snd st))).

Definition sendToConnection (connectionId : string) (message : Msg)
  : M State bool :=
  fun st =>
    match JsMap.get connectionId (connections (fst st)) with
    | None => (Returned false, st)
    | Some connection => (send connection message ;;; ret true) st
    end.

(** [for (const connectionId of connectionIds) { if
    (this.sendToConnection(connectionId, message)) sent++; }] *)
Fixpoint send_each (connectionIds : list string) (message : Msg)
    (sent : nat) : M State nat :=
  match connectionIds with
  | [] => ret sent
  | connectionId :: rest =>
      ok <- sendToConnection connectionId message ;;
      send_each rest message (if ok then S sent else sent)
  end.

Definition sendToUser (u : string) (message : Msg) : M State nat :=
  fun st =>
    match JsMap.get u (userConnections (fst st)) with
    | None => (Returned 0, st)
    | Some connectionIds => send_each connectionIds message 0 st
    end.

Definition sendToChannel (c : string) (message : Msg) : M State nat :=
  fun st =>
    match JsMap.get c (channelConnections (fst st)) with
    | None => (Returned 0, st)
    | Some connectionIds => send_each connectionIds message 0 st
    end.

(** [for (const connection of this.connections.values()) {
    connection.send(message); sent++; }] *)
Fixpoint send_all (conns : list Connection) (message : Msg) (sent : nat)
  : M State nat :=
  match conns with
  | [] => ret sent
  | connection :: rest =>
      send connection message ;;;
      send_all rest message (S sent)
  end.

Definition broadcast (message : Msg) : M State nat :=
  fun st => send_all (JsMap.values (connections (fst st))) message 0 st.

(** The three multi-target publishers as one family. *)
Inductive Target : Type :=
| ToUser (u : string)
| ToChannel (c : string)
| ToAll.

Definition publish (t : Target) (message : Msg) : M State nat :=
  match t with
  | ToUser u => sendToUser u message
  | ToChannel c => sendToChannel c message
  | ToAll => broadcast message
  end.

(** The registered records behind a list of ids, in the order of the
    list. *)
Definition registered (connectionIds : list string) (r : Registry)
  : list Connection :=
  flat_map (fun i => match JsMap.get i (connections r) with
                     | Some c => [c]
                     | None => []
                     end) connectionIds.

(** The records a publisher sends to, in the order it visits them. *)
Definition targets (t : Target) (r : Registry) : list Connection :=
  match t with
  | ToUser u => registered (set_at u (userConnections r)) r
  | ToChannel c => registered (set_at c (channelConnections r)) r
  | ToAll => JsMap.values (connections r)
  end.

(** Both encoders end in one call [sendFn(data)] and do nothing else. *)
Definition hands_to_sendFn : Prop :=
  forall (sf : SendFn) (message : Msg) (w : W),
    exists data, sendFrame sf message w = sf data w.

(** The world after [connection.send(message)] ran for each of [tgts] in
    turn. *)
Definition sends_to (message : Msg) (tgts : list Connection) (w : W) : W :=
  fold_left (fun w' c => snd (sendFrame (sendFn c) message w')) tgts w.

(** What a publisher does with the targets [tgts], started with the
    counter at [sent] in state [st] and ending as [res]: the registry is
    left as it was; a returned count is the number of targets; the call
    returns when no target's [sendFn] throws, and throws when the
    [sendFn] of some target throws; and when it throws at target [c],
    nothing is sent to the targets after [c]. *)
Definition aborting_publish (message : Msg) (tgts : list Connection)
    (sent : nat) (st : State) (res : Outcome nat * State) : Prop :=
  fst (snd res) = fst st /\
  (forall n, fst res = Returned n -> n = sent + length tgts) /\
  ((forall c, In c tgts -> never_throws (sendFn c)) ->
   fst res = Returned (sent + length tgts)) /\
  ((exists c, In c tgts /\ always_throws (sendFn c)) ->
   exists e, fst res = Threw e) /\
  (forall before c after,
     tgts = before ++ c :: after ->
     (forall c', In c' before -> never_throws (sendFn c')) ->
     always_throws (sendFn c) ->
     snd (snd res) = sends_to message (before ++ [c]) (snd st)).

(** [connection.close(args)] called [n] times in a row. *)
Fixpoint close_times (n : nat) (c : Connection) (args : CloseArgs)
  : M State unit :=
  match n with
  | O => ret tt
  | S n' => close c args ;;; close_times n' c args
  end.

(** [for (const connection of this.connections.values())
    connection.close(code, reason);] -- each [close] deletes the entry
    being visited only, so the live iteration visits the entries present
    when the loop starts. *)
Fixpoint close_each (conns : list Connection) (args : CloseArgs)
  : M State unit :=
  match conns with
  | [] => ret tt
  | connection :: rest => close connection args ;;; close_each rest args
  end.

Definition closeAll (args : CloseArgs) : M State unit :=
  fun st => close_each (JsMap.values (connections (fst st))) args st.

End Registry.

(** ** What a publisher hands to the sockets *)

Section Delivery.
Variable W : Type.
Variable CloseArgs : Type.
Variable Msg : Type.

(** The encoder behind [connection.send] makes one string of the message
    (in a world [w]: [sendMessage] reads the clock), hands it to [sendFn]
    and does nothing else. *)
Definition encodes (sendFrame : SendFn W -> Msg -> M W unit)
    (encode : Msg -> W -> string) : Prop :=
  forall (sf : SendFn W) (message : Msg) (w : W),
    sendFrame sf message w = sf (encode message w) w.

Variable encode : Msg -> W -> string.

(** The call [sendFn(data)] that [connection.send(message)] makes. *)
Definition sendFn_call (c : Connection W CloseArgs) (message : Msg)
  : M W unit :=
  fun w => sendFn c (encode message w) w.

(** The world after [sendFn] was called for each of [tgts] in turn. *)
Definition delivered_to (message : Msg)
    (tgts : list (Connection W CloseArgs)) (w : W) : W :=
  fold_left (fun w' c => snd (sendFn_call c message w')) tgts w.

(** The call of [sendFn] returns for each of [tgts] in turn, each one
    made in the world that the calls before it left. *)
Fixpoint all_return (message : Msg) (tgts : list (Connection W CloseArgs))
    (w : W) : Prop :=
  match tgts with
  | [] => True
  | c :: rest =>
      fst (sendFn_call c message w) = Returned tt /\
      all_return message rest (snd (sendFn_call c message w))
  end.

(** A walk over [tgts] that stops at the first call of [sendFn] that
    throws, counting the calls that returned. *)
Fixpoint deliver (message : Msg) (tgts : list (Connection W CloseArgs))
    (sent : nat) (w : W) : Outcome nat * W :=
  match tgts with
  | [] => (Returned sent, w)
  | c :: rest =>
      match sendFn_call c message w with
      | (Returned _, w') => deliver message rest (S sent) w'
      | (Threw e, w') => (Threw e, w')
      end
  end.
End Delivery.

(** ** SSEManager: events and their wire format *)

Definition LF : string := String (Ascii.ascii_of_nat 10) EmptyString.

Module SSEEvent.
(** [data: string | object] *)
Inductive Data : Type :=
| DataString (s : string)
| DataObject (v : JsValue).

Record t : Type := {
  id : option string;
  event : option string;
  data : Data;
  retry : option Z
}.
End SSEEvent.

Module SSE.
Section Encoder.
Variable W : Type.
Variable JSON_stringify : JsValue -> string.

(** [typeof event.data === 'string' ? event.data
    : JSON.stringify(event.data)] *)
Definition data_text (d : SSEEvent.Data) : string :=
  match d with
  | SSEEvent.DataString s => s
  | SSEEvent.DataObject v => JSON_stringify v
  end.

(** The [message] string built by [sendEvent]. *)
Definition event_frame (event : SSEEvent.t) : string :=
  (let message := "" in
  let message :=
    match truthy_string (SSEEvent.id event) with
    | Some i => message ++ "id: " ++ i ++ LF
    | None => message
    end in
  let message :=
    match truthy_string (SSEEvent.event event) with
    | Some e => message ++ "event: " ++ e ++ LF
    | None => message
    end in
  let message :=
    message ++ "data: " ++ data_text (SSEEvent.data event) ++ LF in
  let message :=
    match truthy_number (SSEEvent.retry event) with
    | Some ms => message ++ "retry: " ++ Number_toString ms ++ LF
    | None => message
    end in
  message ++ LF)%string.

Definition sendEvent (sendFn : SendFn W) (event : SSEEvent.t) : M W unit :=
  sendFn (event_frame event).

(** [close: () => { closeFn(); ... }] takes no argument. *)
Definition CloseArgs : Type := unit.

(** The keep-alive event broadcast on each timer tick. *)
Definition heartbeat (now : Z) : SSEEvent.t :=
  {| SSEEvent.id := None;
     SSEEvent.event := Some "heartbeat";
     SSEEvent.data :=
       SSEEvent.DataObject (JsObject [("timestamp", JsNumber now)]);
     SSEEvent.retry := None |}.
End Encoder.
End SSE.

(** ** WebSocketManager: messages, encoder and inbound dispatcher *)

(** An object handed over as a [WebSocketMessage]: its own properties
    in the order in which [{ ...message }] copies them.  The interface
    names [type], [payload], [id?] and [timestamp?]. *)
Module WebSocketMessage.
Definition t : Type := JsMap.t JsValue.

(** [message.timestamp] *)
Definition timestamp (message : t) : JsValue :=
  match JsMap.get "timestamp" message with
  | Some v => v
  | None => JsUndefined
  end.
End WebSocketMessage.

Module WebSocketManagerOptions.
Record t : Type := {
  heartbeatInterval : option Z;
  connectionTimeout : option Z;
  maxConnectionsPerUser : option Z;
  maxMessageSize : option Z
}.

(** [x ?? d] *)
Definition or_default (x : option Z) (d : Z) : Z :=
  match x with Some z => z | None => d end.
End WebSocketManagerOptions.

(** The [TypeError] of a template literal on an object that has no
    callable [toString] or [valueOf]. *)
Definition not_primitive : Thrown :=
  ThrownError TypeError "Cannot convert object to primitive value".

(** Template-literal conversion [`${v}`] of a value that [JSON.parse]
    returned.  An array is the join of its elements ([null] as the empty
    string).  An object goes through [toString]: that of
    [Object.prototype] gives [[object Object]]; an own property
    [toString], which in a parsed object is never a function, hides it,
    and the conversion throws. *)
Fixpoint ToString (v : JsValue) : Outcome string :=
  match v with
  | JsUndefined => Returned "undefined"
  | JsNull => Returned "null"
  | JsBool true => Returned "true"
  | JsBool false => Returned "false"
  | JsNumber z => Returned (Number_toString z)
  | JsString s => Returned s
  | JsArray items =>
      (fix join (l : list JsValue) : Outcome string :=
         match l with
         | [] => Returned ""
         | x :: rest =>
             match match x with
                   | JsUndefined | JsNull => Returned ""
                   | _ => ToString x
                   end with
             | Threw e => Threw e
             | Returned e =>
                 match rest with
                 | [] => Returned e
                 | _ :: _ =>
                     match join rest with
                     | Threw e' => Threw e'
                     | Returned r => Returned (e ++ "," ++ r)
                     end
                 end
             end
         end) items
  | JsObject fields =>
      if JsMap.has "toString" fields
      then Threw not_primitive
      else Returned "[object Object]"
  end%string.

(** The integers that a template literal prints in decimal, digit for
    digit: those up to [Number.MAX_SAFE_INTEGER] in absolute value. *)
Fixpoint safe_integers (v : JsValue) : bool :=
  match v with
  | JsNumber z => (Z.abs z <=? 9007199254740991)%Z
  | JsArray items => forallb safe_integers items
  | JsObject fields => forallb (fun kv => safe_integers (snd kv)) fields
  | _ => true
  end.

Module WS.
Section Manager.
Variable W : Type.
Variable Date_now : W -> Z.
Variable JSON_parse : string -> Parsed.
Variable JSON_stringify : JsValue -> string.

(** [close: (code?: number, reason?: string) => ...] *)
Definition CloseArgs : Type := (option Z * option string)%type.

Definition WsConnection : Type := Connection W CloseArgs.
Definition WsState : Type := State W CloseArgs.

(** [{ ...message, timestamp: message.timestamp ?? Date.now() }]: the
    properties of the message in their order; [timestamp] keeps its
    place when the message has one and comes last otherwise, and its
    value is that of the message unless that is [null] or [undefined]. *)
Definition stamped (message : WebSocketMessage.t) (now : Z) : JsValue :=
  JsObject
    (JsMap.set "timestamp"
       match WebSocketMessage.timestamp message with
       | JsUndefined | JsNull => JsNumber now
       | t => t
       end
       message).

(** The argument of [sendFn] in [sendMessage]. *)
Definition encoded (message : WebSocketMessage.t) (w : W) : string :=
  JSON_stringify (stamped message (Date_now w)).

Definition sendMessage (sendFn : SendFn W) (message : WebSocketMessage.t)
  : M W unit :=
  fun w => sendFn (JSON_stringify (stamped message (Date_now w))) w.

Definition MessageHandler : Type :=
  WsConnection -> JsValue -> M WsState unit.

(** The parts of the manager that [handleMessage] reads and that no
    registry operation writes. *)
Record Dispatcher : Type := {
  maxMessageSize : Z;
  messageHandlers : JsMap.t MessageHandler
}.

(** The constructor: defaults are filled in with [??]. *)
Definition new_manager (options : WebSocketManagerOptions.t)
  : Registry W CloseArgs * Dispatcher :=
  (new_registry W CloseArgs
     (WebSocketManagerOptions.or_default
        (WebSocketManagerOptions.maxConnectionsPerUser options) 10),
   {| maxMessageSize :=
        WebSocketManagerOptions.or_default
          (WebSocketManagerOptions.maxMessageSize options) (1024 * 1024);
      messageHandlers := JsMap.empty |}).

Definition onMessage (type : string) (handler : MessageHandler)
    (d : Dispatcher) : Dispatcher :=
  {| maxMessageSize := maxMessageSize d;
     messageHandlers := JsMap.set type handler (messageHandlers d) |}.

Definition wsend (c : WsConnection) (message : WebSocketMessage.t)
  : M WsState unit :=
  send sendMessage c message.

Definition lift_outcome {A} (o : Outcome A) : M WsState A :=
  fun st => (o, st).

(** [JSON.parse(rawMessage)] *)
Definition parse (rawMessage : string) : Outcome JsValue :=
  match JSON_parse rawMessage with
  | ParseOk v => Returned v
  | ParseFail m => Threw (ThrownError SyntaxError m)
  end.

(** [message.type] on whatever [JSON.parse] returned. *)
Definition type_of (message : JsValue) : Outcome JsValue :=
  match message with
  | JsNull =>
      Threw (ThrownError TypeError
               "Cannot read properties of null (reading 'type')")
  | JsUndefined =>
      Threw (ThrownError TypeError
               "Cannot read properties of undefined (reading 'type')")
  | JsObject fields =>
      Returned match JsMap.get "type" fields with
               | Some v => v
               | None => JsUndefined
               end
  | JsBool _ | JsNumber _ | JsString _ | JsArray _ => Returned JsUndefined
  end.

(** [this.messageHandlers.get(message.type)]: the keys are strings, and
    no other value is equal to a string key. *)
Definition find_handler (ty : JsValue) (d : Dispatcher)
  : option MessageHandler :=
  match ty with
  | JsString s => JsMap.get s (messageHandlers d)
  | _ => None
  end.

(** [(error as Error).message], as far as the error frame that carries
    it can be serialized.  For a value whose [message] is read but
    refused by [JSON.stringify], the throw is that of [JSON.stringify]
    in [sendMessage]: like the throw of a read, it comes before [sendFn]
    is called. *)
Definition message_of (error : Thrown) : Outcome JsValue :=
  match error with
  | ThrownError _ m => Returned (JsString m)
  | ThrownPlain => Returned JsUndefined
  | ThrownWith m => Returned m
  | ThrownNull =>
      Threw (ThrownError TypeError
               "Cannot read properties of null (reading 'message')")
  | ThrownUndefined =>
      Threw (ThrownError TypeError
               "Cannot read properties of undefined (reading 'message')")
  | ThrownOpaque e => Threw e
  end.

(** The thrown values that the [catch] block can put in an error
    frame. *)
Definition reportable (error : Thrown) : bool :=
  returned (message_of error).

(** [{ type: 'error', payload: { error: m } }] *)
Definition error_frame (m : JsValue) : WebSocketMessage.t :=
  [("type", JsString "error"); ("payload", JsObject [("error", m)])].

(** The body of the [try] block of [handleMessage]. *)
Definition dispatch (d : Dispatcher) (connection : WsConnection)
    (rawMessage : string) : M WsState unit :=
  message <- lift_outcome (parse rawMessage) ;;
  ty <- lift_outcome (type_of message) ;;
  if negb (truthy ty)
  then throw (ThrownError Error "Message type is required")
  else if (Z.of_nat (utf16_length rawMessage) >? maxMessageSize d)%Z
  then throw (ThrownError Error
                "Message size exceeds maximum allowed size")
  else
    match find_handler ty d with
    | Some handler => handler connection message
    | None =>
        text <- lift_outcome (ToString ty) ;;
        wsend connection
          (error_frame
             (JsString ("No handler found for message type: "
                          ++ text)%string))
    end.

(** The [catch (error)] block of [handleMessage]. *)
Definition report (connection : WsConnection) (error : Thrown)
  : M WsState unit :=
  m <- lift_outcome (message_of error) ;;
  wsend connection (error_frame m).

(** A thrown outcome of [handleMessage] is a rejected promise. *)
Definition handleMessage (d : Dispatcher) (connectionId rawMessage : string)
  : M WsState unit :=
  fun st =>
    match getConnection (fst st) connectionId with
    | None => (Returned tt, st)
    | Some connection =>
        try_catch (dispatch d connection rawMessage) (report connection) st
    end.

(** The keep-alive message broadcast on each timer tick. *)
Definition heartbeat (now : Z) : WebSocketMessage.t :=
  [("type", JsString "heartbeat");
   ("payload", JsObject [("timestamp", JsNumber now)])].
End Manager.
End WS.

(** ** Sequences of registry calls *)

Section Calls.
Variable W : Type.
Variable Date_now : W -> Z.
Variable CloseArgs : Type.

Inductive Call : Type :=
| Add (connectionId : string) (sendFn0 : SendFn W)
      (closeFn0 : CloseFn W CloseArgs) (userId0 channel0 : option string)
| Remove (connectionId : string).

(** One call; a rejected [addConnection] leaves whatever state the
    method left when it threw. *)
Definition step (c : Call) (st : State W CloseArgs) : State W CloseArgs :=
  match c with
  | Add connectionId sendFn0 closeFn0 userId0 channel0 =>
      snd (addConnection Date_now connectionId sendFn0 closeFn0
             userId0 channel0 st)
  | Remove connectionId => (removeConnection connectionId (fst st), snd st)
  end.

Definition run (calls : list Call) (st : State W CloseArgs)
  : State W CloseArgs :=
  fold_left (fun s c => step c s) calls st.

(** No [addConnection] of the sequence is given an id that is a key of
    [connections] at the time of the call. *)
Fixpoint fresh_ids (calls : list Call) (st : State W CloseArgs) : bool :=
  match calls with
  | [] => true
  | c :: rest =>
      match c with
      | Add connectionId _ _ _ _ =>
          negb (JsMap.has connectionId (connections (fst st)))
      | Remove _ => true
      end && fresh_ids rest (step c st)
  end.

(** *** The index invariants

    [key_of] is [userId] for [userConnections] and [channel] for
    [channelConnections]; a connection has a user (a channel) when the
    field passes the [if (userId)] test of the code. *)
Section Index.
Variable key_of : Connection W CloseArgs -> option string.
Variable conns : JsMap.t (Connection W CloseArgs).
Variable index : JsMap.t JsSet.t.

(** Every registered record with a key is in the set of that key. *)
Definition records_indexed : Prop :=
  forall cid c k,
    JsMap.get cid conns = Some c ->
    truthy_string (key_of c) = Some k ->
    exists s, JsMap.get k index = Some s /\ In cid s.

(** Every id in a set is a registered record whose key matches. *)
Definition index_sound : Prop :=
  forall k s cid,
    JsMap.get k index = Some s -> In cid s ->
    exists c,
      JsMap.get cid conns = Some c /\ truthy_string (key_of c) = Some k.

(** No set of the index is empty. *)
Definition no_empty_set : Prop :=
  forall k s, JsMap.get k index = Some s -> s <> [].
End Index.

(** What [addConnection] and [removeConnection] do to one index, for a
    record [c] stored under [cid]. *)
Section Tracked.
Variable key_of : Connection W CloseArgs -> option string.

Definition tracked (c : Connection W CloseArgs) (cid : string)
    (index : JsMap.t JsSet.t) : JsMap.t JsSet.t :=
  match truthy_string (key_of c) with
  | Some k => track k cid index
  | None => index
  end.

Definition untracked (c : Connection W CloseArgs) (cid : string)
    (index : JsMap.t JsSet.t) : JsMap.t JsSet.t :=
  match truthy_string (key_of c) with
  | Some k => untrack k cid index
  | None => index
  end.
End Tracked.

(** [|byUser[u]| <= maxConnectionsPerUser] for every set of the index. *)
Definition within_quota (r : Registry W CloseArgs) : Prop :=
  forall u s,
    JsMap.get u (userConnections r) = Some s ->
    (Z.of_nat (JsSet.size s) <= maxConnectionsPerUser r)%Z.

(** Neither index has the empty string as a key. *)
Definition no_empty_key (r : Registry W CloseArgs) : Prop :=
  JsMap.get "" (userConnections r) = None /\
  JsMap.get "" (channelConnections r) = None.

(** The invariants that do not say where the ids of a set come from:
    records are indexed, no set is empty, the quota holds. *)
Record loose_invariants (r : Registry W CloseArgs) : Prop := {
  inv_user_indexed :
    records_indexed (@userId W CloseArgs) (connections r)
      (userConnections r);
  inv_channel_indexed :
    records_indexed (@channel W CloseArgs) (connections r)
      (channelConnections r);
  inv_user_nonempty : no_empty_set (userConnections r);
  inv_channel_nonempty : no_empty_set (channelConnections r);
  inv_quota : within_quota r
}.

(** Both indices hold ids of registered records of that user/channel
    only. *)
Record sound_indices (r : Registry W CloseArgs) : Prop := {
  inv_user_sound :
    index_sound (@userId W CloseArgs) (connections r) (userConnections r);
  inv_channel_sound :
    index_sound (@channel W CloseArgs) (connections r)
      (channelConnections r)
}.

(** All the index invariants together. *)
Definition registry_invariants (r : Registry W CloseArgs) : Prop :=
  loose_invariants r /\ sound_indices r.
End Calls.
Arguments Remove {W CloseArgs} connectionId.

(** ** A simulated world for concrete runs

    Sockets are named; a write or an end is appended to a log.  The clock
    is a field of the world. *)

Module Sim.
Inductive IO : Type :=
| Wrote (socket data : string)
| Ended (socket : string).

Record World : Type := { clock : Z; wire : list IO }.

Definition boot : World := {| clock := 1700000000000; wire := [] |}.

Definition Date_now (w : World) : Z := clock w.

Definition record (e : IO) (w : World) : World :=
  {| clock := clock w; wire := wire w ++ [e] |}.

(** [(data) => socket.write(data)] on a healthy socket. *)
Definition socket_send (socket : string) : SendFn World :=
  fun data w => (Returned tt, record (Wrote socket data) w).

(** A socket whose write throws. *)
Definition broken_send : SendFn World :=
  fun _ w => (Threw (ThrownError Error "write EPIPE"), w).

(** [() => socket.end()] *)
Definition socket_end {A : Type} (socket : string) : CloseFn World A :=
  fun _ w => (Returned tt, record (Ended socket) w).

Definition DQ : string := String (Ascii.ascii_of_nat 34) EmptyString.

Definition quoted (s : string) : string := (DQ ++ s ++ DQ)%string.

(** A serializer for the values of the examples: the compact output of
    [JSON.stringify] on integers, booleans, [null], arrays, objects and
    strings that need no escaping. *)
Fixpoint JSON_stringify (v : JsValue) : string :=
  match v with
  | JsUndefined => "undefined"
  | JsNull => "null"
  | JsBool true => "true"
  | JsBool false => "false"
  | JsNumber z => Number_toString z
  | JsString s => quoted s
  | JsArray items =>
      "[" ++
      (fix elements (l : list JsValue) : string :=
         match l with
         | [] => ""
         | x :: rest =>
             let e := match x with
                      | JsUndefined => "null"
                      | _ => JSON_stringify x
                      end in
             match rest with
             | [] => e
             | _ :: _ => e ++ "," ++ elements rest
             end
         end) items ++ "]"
  | JsObject fields =>
      "{" ++
      (fix members (l : list (string * JsValue)) (first : bool) : string :=
         match l with
         | [] => ""
         | (k, JsUndefined) :: rest => members rest first
         | (k, x) :: rest =>
             (if first then "" else ",")
               ++ quoted k ++ ":" ++ JSON_stringify x ++ members rest false
         end) fields true ++ "}"
  end%string.

Definition chat_frame : JsValue :=
  JsObject [("type", JsString "chat:send"); ("payload", JsObject [])].

Definition untyped_frame : JsValue :=
  JsObject [("payload", JsObject [])].

Definition drop_frame : JsValue :=
  JsObject [("type", JsString "drop")].

Definition typo_frame : JsValue :=
  JsObject [("type", JsString "chat:sned"); ("payload", JsObject [])].

(** A chat frame with characters outside ASCII: each of them is two
    bytes and one UTF-16 code unit. *)
Definition accent_frame : JsValue :=
  JsObject [("type", JsString "chat:send");
            ("payload", JsString "déjà vu à Köln")].

(** [{"type":{"toString":1}}] *)
Definition method_frame : JsValue :=
  JsObject [("type", JsObject [("toString", JsNumber 1)])].

(** The chat frame as it arrives on the socket. *)
Definition chat_text : string := JSON_stringify chat_frame.


(** The inbound frames of the examples. *)
Definition known_frames : list JsValue :=
  [chat_frame; untyped_frame; drop_frame; typo_frame; JsNull;
   accent_frame; method_frame].

(** A stand-in for [JSON.parse]: it agrees with it on the serialized
    [known_frames] and on the text [not json], which are the inputs of
    the examples. *)
Definition JSON_parse (text : string) : Parsed :=
  match find (fun v => JSON_stringify v =? text) known_frames with
  | Some v => ParseOk v
  | None => ParseFail "Unexpected token in JSON"
  end.

(** *** A WebSocket manager over the simulated world *)

Definition WsState : Type := State World WS.CloseArgs.
Definition WsCall : Type := Call World WS.CloseArgs.

Definition fresh_manager (maxPerUser : Z) : WsState :=
  (new_registry World WS.CloseArgs maxPerUser, boot).

(** The accept loop registers socket [cid] under the id [cid]. *)
Definition connect (cid : string) (user chan : option string) : WsCall :=
  Add cid (socket_send cid) (socket_end cid) user chan.

(** The same with a socket whose writes fail. *)
Definition connect_broken (cid : string) (user chan : option string)
  : WsCall :=
  Add cid broken_send (socket_end cid) user chan.

Definition session : list WsCall :=
  [connect "c1" (Some "u1") (Some "x");
   connect "c2" (Some "u1") None;
   connect "c3" (Some "u2") (Some "x");
   Remove "c1";
   connect "c1" (Some "u2") None].

(** The id [a] is registered twice, for two users. *)
Definition session_reuse : list WsCall :=
  [connect "a" (Some "u1") None; connect "a" (Some "u2") None].

Definition after (calls : list WsCall) (st : WsState) : WsState :=
  run Date_now calls st.

(** Two clients of user [u1] and one of user [u2]. *)
Definition three_clients : WsState :=
  after [connect "c1" (Some "u1") None; connect "c2" (Some "u1") None;
         connect "c3" (Some "u2") None] (fresh_manager 10).

(** Two clients of user [u1], with a quota of 2. *)
Definition two_clients : WsState :=
  after [connect "c1" (Some "u1") None; connect "c2" (Some "u1") None]
    (fresh_manager 2).

(** One client of user [u1] under the id [c1], with a quota of 2. *)
Definition one_client : WsState :=
  after [connect "c1" (Some "u1") None] (fresh_manager 2).

(** How many times socket [socket] was ended. *)
Definition closes (socket : string) (w : World) : nat :=
  length (filter (fun e => match e with
                           | Ended s => s =? socket
                           | Wrote _ _ => false
                           end) (wire w)).

Definition no_args : WS.CloseArgs := (None, None).

Definition wsFrame : SendFn World -> WebSocketMessage.t -> M World unit :=
  WS.sendMessage Date_now JSON_stringify.

Definition note : WebSocketMessage.t :=
  [("type", JsString "n"); ("payload", JsNumber 1)].

(** Two clients on channel [x]; the socket of [c1] is dead. *)
Definition channel_x : WsState :=
  after [connect_broken "c1" None (Some "x"); connect "c2" None (Some "x")]
    (fresh_manager 10).

(** *** Inbound dispatch *)

Definition Handler : Type := WS.MessageHandler World.

(** [async () => { throw new Error('boom') }] *)
Definition failing_handler : Handler :=
  fun _ _ => throw (ThrownError Error "boom").

(** [() => Promise.reject(null)] *)
Definition rejecting_handler : Handler :=
  fun _ _ => throw ThrownNull.


Definition dispatcher_of (options : WebSocketManagerOptions.t)
  : WS.Dispatcher World :=
  WS.onMessage "drop" rejecting_handler
    (WS.onMessage "chat:send" failing_handler
       (snd (WS.new_manager World options))).

(** A manager whose only handler throws an [Error]. *)
Definition chat_only (options : WebSocketManagerOptions.t)
  : WS.Dispatcher World :=
  WS.onMessage "chat:send" failing_handler
    (snd (WS.new_manager World options)).

Definition defaults : WebSocketManagerOptions.t :=
  {| WebSocketManagerOptions.heartbeatInterval := None;
     WebSocketManagerOptions.connectionTimeout := None;
     WebSocketManagerOptions.maxConnectionsPerUser := None;
     WebSocketManagerOptions.maxMessageSize := None |}.

Definition handle (options : WebSocketManagerOptions.t)
  : string -> string -> M WsState unit :=
  WS.handleMessage Date_now JSON_parse JSON_stringify
    (dispatcher_of options).

(** What one [connection.send(frame)] on socket [cid] leaves in the
    state. *)
Definition sent_on (cid : string) (frame : WebSocketMessage.t)
    (st : WsState) : WsState :=
  (fst st,
   record (Wrote cid
             (JSON_stringify (WS.stamped frame (Date_now (snd st)))))
     (snd st)).

(** One client with a dead socket. *)
Definition dead_client : WsState :=
  after [connect_broken "c1" (Some "u1") None] (fresh_manager 2).

(** *** SSE events with a field that is present but empty or zero *)

Definition empty_id_event : SSEEvent.t :=
  {| SSEEvent.id := Some "";
     SSEEvent.event := None;
     SSEEvent.data := SSEEvent.DataString "x";
     SSEEvent.retry := None |}.

Definition zero_retry_event : SSEEvent.t :=
  {| SSEEvent.id := None;
     SSEEvent.event := Some "tick";
     SSEEvent.data := SSEEvent.DataObject (JsObject [("n", JsNumber 1)]);
     SSEEvent.retry := Some 0%Z |}.

(** The record [addConnection] builds for socket [cid] at boot time. *)
Definition connection (cid : string) (user chan : option string)
  : Connection World WS.CloseArgs :=
  {| id := cid; userId := user; channel := chan;
     connectedAt := Date_now boot;
     sendFn := socket_send cid; closeFn := socket_end cid |}.

Definition register (cid : string) (user chan : option string)
  : M WsState (Connection World WS.CloseArgs) :=
  addConnection Date_now cid (socket_send cid) (socket_end cid) user chan.
(** *** States for the further properties *)




(** The record [addConnection] builds for a socket whose writes fail. *)
Definition dead_connection (cid : string) (user chan : option string)
  : Connection World WS.CloseArgs :=
  {| id := cid; userId := user; channel := chan;
     connectedAt := Date_now boot;
     sendFn := broken_send; closeFn := socket_end cid |}.

(** The argument of [sendFn] in [wsFrame]. *)
Definition wsEncode : WebSocketMessage.t -> World -> string :=
  WS.encoded Date_now JSON_stringify.

(** [async () => { throw { message: 10n } }]: [JSON.stringify] refuses
    the error frame. *)
Definition unserializable_handler : Handler :=
  fun _ _ =>
    throw (ThrownOpaque
             (ThrownError TypeError "Do not know how to serialize a BigInt")).

(** [() => Promise.reject(undefined)] *)
Definition undefined_handler : Handler :=
  fun _ _ => throw ThrownUndefined.


(** [new WebSocketManager({ maxConnectionsPerUser: 0 })] *)
Definition zero_quota : WebSocketManagerOptions.t :=
  {| WebSocketManagerOptions.heartbeatInterval := None;
     WebSocketManagerOptions.connectionTimeout := None;
     WebSocketManagerOptions.maxConnectionsPerUser := Some 0%Z;
     WebSocketManagerOptions.maxMessageSize := None |}.
End Sim.


(** ** The SSE frame as the specification words it

    The lines [id:], [event:], [data:], [retry:], each one when the field
    is present, then one blank line. *)
Definition sse_line (field value : string) : string :=
  (field ++ ": " ++ value ++ LF)%string.

(** The event with every field that fails the test of the code (an empty
    [id] or [event], a [retry] of zero) taken as absent. *)
Definition drop_falsy (event : SSEEvent.t) : SSEEvent.t :=
  {| SSEEvent.id := truthy_string (SSEEvent.id event);
     SSEEvent.event := truthy_string (SSEEvent.event event);
     SSEEvent.data := SSEEvent.data event;
     SSEEvent.retry := truthy_number (SSEEvent.retry event) |}.

Definition sse_frame_spec (JSON_stringify : JsValue -> string)
    (event : SSEEvent.t) : string :=
  (match SSEEvent.id event with
   | Some i => sse_line "id" i
   | None => ""
   end
   ++ match SSEEvent.event event with
      | Some e => sse_line "event" e
      | None => ""
      end
   ++ sse_line "data"
        match SSEEvent.data event with
        | SSEEvent.DataString s => s
        | SSEEvent.DataObject v => JSON_stringify v
        end
   ++ match SSEEvent.retry event with
      | Some ms => sse_line "retry" (Number_toString ms)
      | None => ""
      end
   ++ LF)%string.

(** ** Shapes of a registry used by the further properties *)

Section Shape.
Variable W : Type.
Variable CloseArgs : Type.

(** Every record sits under its own [id]. *)
Definition entries_by_id (conns : JsMap.t (Connection W CloseArgs)) : Prop :=
  Forall (fun kv => id (snd kv) = fst kv) conns.

(** No set of the index lists an id twice. *)
Definition sets_nodup (index : JsMap.t JsSet.t) : Prop :=
  forall k s, JsMap.get k index = Some s -> NoDup s.

(** The ids of the registered records whose user (or channel) is [k]. *)
Definition ids_with (key_of : Connection W CloseArgs -> option string)
    (k : string) (conns : JsMap.t (Connection W CloseArgs)) : list string :=
  map fst
    (filter (fun kv => match truthy_string (key_of (snd kv)) with
                       | Some k' => k' =? k
                       | None => false
                       end) conns).

(** The shape every registry built by the two methods has: an id is a
    key of [connections] once, its record carries it, and no set lists
    an id twice. *)
Record well_formed (r : Registry W CloseArgs) : Prop := {
  wf_keys : NoDup (JsMap.keys (connections r));
  wf_ids : entries_by_id (connections r);
  wf_user_sets : sets_nodup (userConnections r);
  wf_channel_sets : sets_nodup (channelConnections r)
}.

(** The registry after [removeConnection(c.id)] ran for each record of
    [cs] in turn. *)
Definition removed_all (cs : list (Connection W CloseArgs))
    (r : Registry W CloseArgs) : Registry W CloseArgs :=
  fold_left (fun r' c => removeConnection (id c) r') cs r.

(** The world after [closeFn(args)] ran for each record of [cs] in
    turn. *)
Definition closed_all (args : CloseArgs) (cs : list (Connection W CloseArgs))
    (w : W) : W :=
  fold_left (fun w' c => snd (closeFn c args w')) cs w.
End Shape.

(** * Properties *)

(** ** Concrete runs *)

(** Fan-out by user: both connections of [u1] get the frame, the
    connection of [u2] does not. *)
Example fan_out_by_user :
  publish Sim.wsFrame (ToUser "u1") Sim.note Sim.three_clients
  = (Returned 2,
     Sim.sent_on "c2" Sim.note (Sim.sent_on "c1" Sim.note Sim.three_clients)).
Proof. reflexivity. Qed.

(** A frame whose type has no handler is answered on its connection. *)
Example unknown_message_type :
  Sim.handle Sim.defaults "c1" (Sim.JSON_stringify Sim.typo_frame)
    Sim.one_client
  = (Returned tt,
     Sim.sent_on "c1"
       (WS.error_frame
          (JsString "No handler found for message type: chat:sned"))
       Sim.one_client).
Proof. reflexivity. Qed.

(** A frame for a connection that is not registered is dropped. *)
Example unknown_connection :
  Sim.handle Sim.defaults "nobody" "not json" Sim.one_client
  = (Returned tt, Sim.one_client).
Proof. reflexivity. Qed.

(** The keep-alive frame of the SSE manager. *)
Example sse_heartbeat_frame :
  SSE.event_frame Sim.JSON_stringify (SSE.heartbeat 5)
  = ("event: heartbeat" ++ LF
     ++ "data: {" ++ Sim.quoted "timestamp" ++ ":5}" ++ LF ++ LF)%string.
Proof. reflexivity. Qed.

(** The quota of 2 admits two connections of a user and no third. *)
Example quota_of_two :
  Sim.register "c3" (Some "u1") None Sim.two_clients
  = (Threw (ThrownError Error "Maximum connections (2) exceeded for user u1"),
     Sim.two_clients) /\
  getUserConnectionCount (fst Sim.two_clients) "u1" = 2 /\
  getConnection (fst Sim.two_clients) "c3" = None.
Proof. repeat split; reflexivity. Qed.

(** ** Map and Set laws *)

Module JsMapFacts.
Section Facts.
Context {V : Type}.
Implicit Types (m : JsMap.t V) (k : string) (v : V).

Lemma get_app k m m2 :
  JsMap.get k (m ++ m2) =
  match JsMap.get k m with
  | Some v => Some v
  | None => JsMap.get k m2
  end.
Proof.
  induction m as [|[k0 v0] m IH]; simpl; [reflexivity|].
  destruct (k =? k0); [reflexivity | apply IH].
Qed.

Lemma get_replace k k' v m :
  JsMap.get k' (JsMap.replace k v m) =
  if k' =? k
  then match JsMap.get k m with Some _ => Some v | None => None end
  else JsMap.get k' m.
Proof.
  induction m as [|[k0 v0] m IH]; simpl.
  - destruct (k' =? k); reflexivity.
  - destruct (String.eqb_spec k k0) as [->|Hk]; simpl.
    + destruct (String.eqb_spec k' k0) as [->|Hk']; reflexivity.
    + rewrite IH.
      destruct (String.eqb_spec k' k0) as [->|Hk'].
      * destruct (String.eqb_spec k0 k); [congruence | reflexivity].
      * reflexivity.
Qed.

Lemma get_set k k' v m :
  JsMap.get k' (JsMap.set k v m) =
  if k' =? k then Some v else JsMap.get k' m.
Proof.
  unfold JsMap.set, JsMap.has.
  destruct (JsMap.get k m) eqn:Hget.
  - rewrite get_replace, Hget. reflexivity.
  - rewrite get_app. simpl.
    destruct (String.eqb_spec k' k) as [->|Hk].
    + rewrite Hget. reflexivity.
    + destruct (JsMap.get k' m); reflexivity.
Qed.

Lemma get_delete k k' m :
  JsMap.get k' (JsMap.delete k m) =
  if k' =? k then None else JsMap.get k' m.
Proof.
  unfold JsMap.delete.
  induction m as [|[k0 v0] m IH]; simpl.
  - destruct (k' =? k); reflexivity.
  - destruct (String.eqb_spec k k0) as [->|Hk]; simpl.
    + rewrite IH. destruct (String.eqb_spec k' k0); reflexivity.
    + rewrite IH.
      destruct (String.eqb_spec k' k0) as [->|Hk'].
      * destruct (String.eqb_spec k0 k); [congruence | reflexivity].
      * reflexivity.
Qed.


Lemma has_false k m : JsMap.has k m = false <-> JsMap.get k m = None.
Proof.
  unfold JsMap.has. destruct (JsMap.get k m); split; congruence.
Qed.

End Facts.
End JsMapFacts.

Module JsSetFacts.
Lemma has_In x s : JsSet.has x s = true <-> In x s.
Proof.
  unfold JsSet.has. rewrite existsb_exists. split.
  - intros [y [Hy Heq]]. apply String.eqb_eq in Heq. now subst.
  - intros H. exists x. split; [assumption | apply String.eqb_refl].
Qed.

Lemma In_add x y s : In x (JsSet.add y s) <-> x = y \/ In x s.
Proof.
  unfold JsSet.add. destruct (JsSet.has y s) eqn:Hhas.
  - apply has_In in Hhas. split; [now right|].
    intros [->|H]; assumption.
  - rewrite in_app_iff. simpl. split.
    + intros [H|[H|[]]]; [now right | now left].
    + intros [->|H]; [right; now left | now left].
Qed.

Lemma In_delete x y s : In x (JsSet.delete y s) <-> x <> y /\ In x s.
Proof.
  unfold JsSet.delete. rewrite filter_In. split.
  - intros [Hin Hneq]. split; [|assumption].
    intros ->. rewrite String.eqb_refl in Hneq. discriminate.
  - intros [Hneq Hin]. split; [assumption|].
    destruct (String.eqb_spec y x); [congruence | reflexivity].
Qed.

Lemma size_add x s :
  JsSet.size (JsSet.add x s) =
  if JsSet.has x s then JsSet.size s else S (JsSet.size s).
Proof.
  unfold JsSet.add, JsSet.size. destruct (JsSet.has x s); [reflexivity|].
  rewrite length_app. simpl. lia.
Qed.

Lemma add_nonempty x s : JsSet.add x s <> [].
Proof.
  intros H. assert (Hin : In x (JsSet.add x s)) by (apply In_add; now left).
  rewrite H in Hin. destruct Hin.
Qed.

End JsSetFacts.

Lemma truthy_string_Some o u :
  truthy_string o = Some u <-> o = Some u /\ u <> "".
Proof.
  unfold truthy_string. destruct o as [s|].
  - destruct (String.eqb_spec s "") as [->|Hs]; split.
    + discriminate.
    + intros [[= <-] H]. congruence.
    + intros [= <-]. now split.
    + intros [[= <-] _]. reflexivity.
  - split; [discriminate | intros [H _]; discriminate].
Qed.

(** ** How [track] and [untrack] change an index *)

Section TrackFacts.
Implicit Types (m : JsMap.t JsSet.t) (k cid : string).

Lemma get_track k k' cid m :
  JsMap.get k' (track k cid m) =
  if k' =? k then Some (JsSet.add cid (set_at k m)) else JsMap.get k' m.
Proof.
  unfold track, set_at, JsMap.has.
  destruct (JsMap.get k m) as [s|] eqn:Hget.
  - rewrite Hget, JsMapFacts.get_set. reflexivity.
  - rewrite JsMapFacts.get_set, String.eqb_refl.
    rewrite !JsMapFacts.get_set.
    destruct (k' =? k); reflexivity.
Qed.

Lemma get_untrack k k' cid m :
  JsMap.get k' (untrack k cid m) =
  if k' =? k
  then match JsMap.get k m with
       | Some s =>
           match JsSet.delete cid s with
           | [] => None
           | s' => Some s'
           end
       | None => None
       end
  else JsMap.get k' m.
Proof.
  unfold untrack.
  destruct (JsMap.get k m) as [s|] eqn:Hget.
  - destruct (JsSet.delete cid s) as [|x s'] eqn:Hdel; simpl.
    + apply JsMapFacts.get_delete.
    + apply JsMapFacts.get_set.
  - destruct (String.eqb_spec k' k) as [->|]; [assumption | reflexivity].
Qed.
End TrackFacts.

(** ** The index invariants are kept by registration and removal *)

Section IndexPreservation.
Variable W : Type.
Variable CloseArgs : Type.
Variable key_of : Connection W CloseArgs -> option string.

Implicit Types (conns : JsMap.t (Connection W CloseArgs))
  (index : JsMap.t JsSet.t) (c : Connection W CloseArgs) (cid : string).

Lemma add_records_indexed conns index c cid :
  records_indexed key_of conns index ->
  records_indexed key_of (JsMap.set cid c conns) (tracked key_of c cid index).
Proof.
  intros Hold cid' c' k' Hget Hkey.
  rewrite JsMapFacts.get_set in Hget. unfold tracked.
  destruct (String.eqb_spec cid' cid) as [->|Hneq].
  - injection Hget as <-. rewrite Hkey, get_track, String.eqb_refl.
    eexists; split; [reflexivity|]. apply JsSetFacts.In_add. now left.
  - destruct (Hold _ _ _ Hget Hkey) as [s [Hs Hin]].
    destruct (truthy_string (key_of c)) as [k|]; [|eauto].
    rewrite get_track. destruct (String.eqb_spec k' k) as [->|]; [|eauto].
    eexists; split; [reflexivity|].
    apply JsSetFacts.In_add. right. unfold set_at. now rewrite Hs.
Qed.

Lemma add_index_sound conns index c cid :
  JsMap.get cid conns = None ->
  index_sound key_of conns index ->
  index_sound key_of (JsMap.set cid c conns) (tracked key_of c cid index).
Proof.
  intros Hfresh Hold k' s' cid' Hget Hin.
  assert (Hkeep : forall k s, JsMap.get k index = Some s -> In cid' s ->
            exists c', JsMap.get cid' (JsMap.set cid c conns) = Some c'
                       /\ truthy_string (key_of c') = Some k).
  { intros k s Hs Hins. destruct (Hold _ _ _ Hs Hins) as [c' [Hc' Hk']].
    exists c'. split; [|assumption].
    rewrite JsMapFacts.get_set.
    destruct (String.eqb_spec cid' cid) as [->|]; [congruence | assumption]. }
  unfold tracked in Hget.
  destruct (truthy_string (key_of c)) as [k|] eqn:Hkey; [|eauto].
  rewrite get_track in Hget.
  destruct (String.eqb_spec k' k) as [->|]; [|eauto].
  injection Hget as <-. apply JsSetFacts.In_add in Hin.
  destruct Hin as [->|Hin].
  - exists c. split; [|assumption].
    now rewrite JsMapFacts.get_set, String.eqb_refl.
  - unfold set_at in Hin.
    destruct (JsMap.get k index) as [s|] eqn:Hs; [eauto | destruct Hin].
Qed.

Lemma add_no_empty_set index c cid :
  no_empty_set index -> no_empty_set (tracked key_of c cid index).
Proof.
  intros Hold k' s' Hget. unfold tracked in Hget.
  destruct (truthy_string (key_of c)) as [k|]; [|eauto].
  rewrite get_track in Hget.
  destruct (String.eqb_spec k' k) as [->|]; [|eauto].
  injection Hget as <-. apply JsSetFacts.add_nonempty.
Qed.

Lemma remove_records_indexed conns index c cid :
  records_indexed key_of conns index ->
  records_indexed key_of (JsMap.delete cid conns) (untracked key_of c cid index).
Proof.
  intros Hold cid' c' k' Hget Hkey.
  rewrite JsMapFacts.get_delete in Hget.
  destruct (String.eqb_spec cid' cid) as [->|Hneq]; [discriminate|].
  destruct (Hold _ _ _ Hget Hkey) as [s [Hs Hin]].
  unfold untracked.
  destruct (truthy_string (key_of c)) as [k|]; [|eauto].
  rewrite get_untrack.
  destruct (String.eqb_spec k' k) as [->|]; [|eauto].
  rewrite Hs.
  assert (Hin' : In cid' (JsSet.delete cid s))
    by (apply JsSetFacts.In_delete; now split).
  destruct (JsSet.delete cid s) as [|x s']; [destruct Hin' | eauto].
Qed.

Lemma remove_index_sound conns index c cid :
  JsMap.get cid conns = Some c ->
  index_sound key_of conns index ->
  index_sound key_of (JsMap.delete cid conns) (untracked key_of c cid index).
Proof.
  intros Hc Hold k' s' cid' Hget Hin.
  assert (Hkeep : forall s, JsMap.get k' index = Some s -> In cid' s ->
            cid' <> cid ->
            exists c', JsMap.get cid' (JsMap.delete cid conns) = Some c'
                       /\ truthy_string (key_of c') = Some k').
  { intros s Hs Hins Hneq.
    destruct (Hold _ _ _ Hs Hins) as [c' [Hc' Hk']].
    exists c'. split; [|assumption].
    rewrite JsMapFacts.get_delete.
    destruct (String.eqb_spec cid' cid); [contradiction | assumption]. }
  assert (Hother : forall s, JsMap.get k' index = Some s -> In cid' s ->
            truthy_string (key_of c) <> Some k' -> cid' <> cid).
  { intros s Hs Hins Hk ->.
    destruct (Hold _ _ _ Hs Hins) as [c' [Hc' Hk']]. congruence. }
  unfold untracked in Hget.
  destruct (truthy_string (key_of c)) as [k|] eqn:Hkey.
  - rewrite get_untrack in Hget.
    destruct (String.eqb_spec k' k) as [->|Hk].
    + destruct (JsMap.get k index) as [s|] eqn:Hs; [|discriminate].
      assert (Hs' : s' = JsSet.delete cid s)
        by (destruct (JsSet.delete cid s); congruence).
      subst s'. apply JsSetFacts.In_delete in Hin. destruct Hin. eauto.
    + apply (Hkeep s'); try assumption.
      apply (Hother s'); congruence.
  - apply (Hkeep s'); try assumption.
    apply (Hother s'); congruence.
Qed.

Lemma remove_no_empty_set index c cid :
  no_empty_set index -> no_empty_set (untracked key_of c cid index).
Proof.
  intros Hold k' s' Hget. unfold untracked in Hget.
  destruct (truthy_string (key_of c)) as [k|]; [|eauto].
  rewrite get_untrack in Hget.
  destruct (String.eqb_spec k' k) as [->|]; [|eauto].
  destruct (JsMap.get k index) as [s|]; [|discriminate].
  destruct (JsSet.delete cid s); [discriminate|].
  injection Hget as <-. discriminate.
Qed.
End IndexPreservation.

Section RegistryPreservation.
Variable W : Type.
Variable Date_now : W -> Z.
Variable CloseArgs : Type.

Implicit Types (r : Registry W CloseArgs) (w : W) (cid : string).

Lemma count_set_at r u :
  getUserConnectionCount r u = JsSet.size (set_at u (userConnections r)).
Proof.
  unfold getUserConnectionCount, set_at.
  destruct (JsMap.get u (userConnections r)); reflexivity.
Qed.

Lemma over_quota_None r uid u :
  over_quota r uid = None -> truthy_string uid = Some u ->
  (Z.of_nat (getUserConnectionCount r u) < maxConnectionsPerUser r)%Z.
Proof.
  unfold over_quota. intros H Hu. rewrite Hu in H.
  destruct (Z.geb_spec (Z.of_nat (getUserConnectionCount r u))
              (maxConnectionsPerUser r)); [discriminate | assumption].
Qed.


(** A rejected [addConnection] returns the state it was given. *)
Lemma addConnection_rejected cid sf cf uid ch (st : State W CloseArgs) e :
  fst (addConnection Date_now cid sf cf uid ch st) = Threw e ->
  snd (addConnection Date_now cid sf cf uid ch st) = st.
Proof.
  unfold addConnection. destruct st as [r w].
  destruct (over_quota r uid); [reflexivity | discriminate].
Qed.

Lemma add_loose r w cid sf cf uid ch :
  loose_invariants r ->
  loose_invariants
    (fst (snd (addConnection Date_now cid sf cf uid ch (r, w)))).
Proof.
  intros [Hui Hci Hun Hcn Hq]. unfold addConnection.
  destruct (over_quota r uid) eqn:Hover; simpl; [now constructor|].
  set (c := {| id := cid; userId := uid; channel := ch;
               connectedAt := Date_now w; sendFn := sf; closeFn := cf |}).
  constructor; simpl.
  - exact (@add_records_indexed W CloseArgs (@userId W CloseArgs)
             _ _ c cid Hui).
  - exact (@add_records_indexed W CloseArgs (@channel W CloseArgs)
             _ _ c cid Hci).
  - exact (@add_no_empty_set W CloseArgs (@userId W CloseArgs)
             _ c cid Hun).
  - exact (@add_no_empty_set W CloseArgs (@channel W CloseArgs)
             _ c cid Hcn).
  - intros u s Hget. simpl in Hget.
    destruct (truthy_string uid) as [u0|] eqn:Hu0; [|now apply (Hq u s)].
    rewrite get_track in Hget.
    destruct (String.eqb_spec u u0) as [->|]; [|now apply (Hq u s)].
    injection Hget as <-. simpl.
    pose proof (over_quota_None r uid Hover Hu0) as Hlt.
    rewrite count_set_at in Hlt. rewrite JsSetFacts.size_add.
    destruct (JsSet.has cid (set_at u0 (userConnections r))); lia.
Qed.

Lemma add_sound r w cid sf cf uid ch :
  sound_indices r ->
  JsMap.get cid (connections r) = None ->
  sound_indices
    (fst (snd (addConnection Date_now cid sf cf uid ch (r, w)))).
Proof.
  intros [Hus Hcs] Hfresh. unfold addConnection.
  destruct (over_quota r uid); simpl; [now constructor|].
  set (c := {| id := cid; userId := uid; channel := ch;
               connectedAt := Date_now w; sendFn := sf; closeFn := cf |}).
  constructor; simpl.
  - exact (@add_index_sound W CloseArgs (@userId W CloseArgs)
             _ _ c cid Hfresh Hus).
  - exact (@add_index_sound W CloseArgs (@channel W CloseArgs)
             _ _ c cid Hfresh Hcs).
Qed.

Lemma remove_loose r cid :
  loose_invariants r -> loose_invariants (removeConnection cid r).
Proof.
  intros [Hui Hci Hun Hcn Hq]. unfold removeConnection.
  destruct (JsMap.get cid (connections r)) as [c|] eqn:Hc;
    [|now constructor].
  constructor; simpl.
  - exact (@remove_records_indexed W CloseArgs (@userId W CloseArgs)
             _ _ c cid Hui).
  - exact (@remove_records_indexed W CloseArgs (@channel W CloseArgs)
             _ _ c cid Hci).
  - exact (@remove_no_empty_set W CloseArgs (@userId W CloseArgs)
             _ c cid Hun).
  - exact (@remove_no_empty_set W CloseArgs (@channel W CloseArgs)
             _ c cid Hcn).
  - intros u s Hget. simpl in Hget.
    destruct (truthy_string (userId c)) as [u0|]; [|now apply (Hq u s)].
    rewrite get_untrack in Hget.
    destruct (String.eqb_spec u u0) as [->|]; [|now apply (Hq u s)].
    destruct (JsMap.get u0 (userConnections r)) as [s0|] eqn:Hs0;
      [|discriminate].
    assert (Hs : s = JsSet.delete cid s0)
      by (destruct (JsSet.delete cid s0); congruence).
    subst s. specialize (Hq u0 s0 Hs0).
    unfold JsSet.size, JsSet.delete in *. simpl.
    pose proof (filter_length_le (fun y => negb (cid =? y)) s0). lia.
Qed.

Lemma remove_sound r cid :
  sound_indices r -> sound_indices (removeConnection cid r).
Proof.
  intros [Hus Hcs]. unfold removeConnection.
  destruct (JsMap.get cid (connections r)) as [c|] eqn:Hc;
    [|now constructor].
  constructor; simpl.
  - exact (@remove_index_sound W CloseArgs (@userId W CloseArgs)
             _ _ c cid Hc Hus).
  - exact (@remove_index_sound W CloseArgs (@channel W CloseArgs)
             _ _ c cid Hc Hcs).
Qed.

Lemma new_registry_invariants maxPerUser :
  registry_invariants (new_registry W CloseArgs maxPerUser).
Proof.
  split; constructor;
    unfold records_indexed, index_sound, no_empty_set, within_quota;
    simpl; intros; discriminate.
Qed.

(** Along any sequence of calls, duplicates included. *)
Lemma run_loose (calls : list (Call W CloseArgs)) :
  forall st : State W CloseArgs,
    loose_invariants (fst st) ->
    loose_invariants (fst (run Date_now calls st)).
Proof.
  induction calls as [|c calls IH]; intros st Hinv; simpl; [assumption|].
  apply IH. destruct c as [cid sf cf uid ch | cid]; simpl.
  - destruct st as [r w]. now apply add_loose.
  - now apply remove_loose.
Qed.

(** Along a sequence that registers fresh ids only. *)
Lemma run_sound (calls : list (Call W CloseArgs)) :
  forall st : State W CloseArgs,
    sound_indices (fst st) ->
    fresh_ids Date_now calls st = true ->
    sound_indices (fst (run Date_now calls st)).
Proof.
  induction calls as [|c calls IH]; intros st Hinv Hfresh; simpl.
  - assumption.
  - simpl in Hfresh. apply andb_true_iff in Hfresh as [Hc Hrest].
    apply IH; [|assumption].
    destruct c as [cid sf cf uid ch | cid]; simpl.
    + destruct st as [r w]. apply add_sound; [assumption|].
      apply JsMapFacts.has_false. now apply negb_true_iff.
    + now apply remove_sound.
Qed.

(** ** C1 (as amended): the registry invariants along call sequences *)

(** C1.  For every finite sequence of interleaved [addConnection] and
    [removeConnection] calls run on a freshly constructed manager
    (rejected admissions leave the state as it is), the resulting
    registry satisfies: every registered record with a non-empty
    userId/channel is in the set of that user/channel, no set of
    [userConnections] or [channelConnections] is empty, and no set of
    [userConnections] is larger than [maxConnectionsPerUser].  If
    moreover no [addConnection] of the sequence is given an id that is
    registered at the time of the call, every id of a set of
    [userConnections]/[channelConnections] is a key of [connections]
    whose record carries that userId/channel. *)
Theorem C1_invariants_along_runs :
  forall (maxPerUser : Z) (w0 : W) (calls : list (Call W CloseArgs)),
    let r :=
      fst (run Date_now calls (new_registry W CloseArgs maxPerUser, w0)) in
    loose_invariants r /\
    (fresh_ids Date_now calls (new_registry W CloseArgs maxPerUser, w0)
     = true ->
     sound_indices r).
Proof.
  intros maxPerUser w0 calls r.
  destruct (new_registry_invariants maxPerUser) as [Hloose Hsound].
  split.
  - now apply run_loose.
  - intros Hfresh. now apply run_sound.
Qed.
End RegistryPreservation.

(** C1, witness: a session of registrations and removals with fresh ids
    satisfies every invariant. *)
Lemma C1_witness :
  fresh_ids Sim.Date_now Sim.session (Sim.fresh_manager 2) = true /\
  registry_invariants
    (fst (run Sim.Date_now Sim.session (Sim.fresh_manager 2))).
Proof.
  split; [reflexivity|].
  destruct (C1_invariants_along_runs Sim.Date_now 2 Sim.boot Sim.session)
    as [Hloose Hsound].
  split; [exact Hloose | exact (Hsound eq_refl)].
Defined.

(** C1 as stated fails: an id registered a second time for another user
    stays in the set of the first user, while its record now carries the
    second user. *)
Lemma C1_counterexample :
  ~ registry_invariants
      (fst (run Sim.Date_now Sim.session_reuse (Sim.fresh_manager 10))).
Proof.
  intros [_ [Hsound _]].
  destruct (Hsound "u1" ["a"] "a" eq_refl (or_introl eq_refl))
    as [c [Hc Hk]].
  vm_compute in Hc. injection Hc as <-. discriminate Hk.
Qed.

(** ** Admission: duplicate ids, the quota, anonymous connections *)

Lemma keys_replace {V} k (v : V) m :
  JsMap.keys (JsMap.replace k v m) = JsMap.keys m.
Proof.
  induction m as [|[k0 v0] m IH]; simpl; [reflexivity|].
  destruct (k =? k0); simpl; [reflexivity | now rewrite IH].
Qed.

Lemma track_keeps k cid (m : JsMap.t JsSet.t) u (s : JsSet.t) x :
  JsMap.get u m = Some s -> In x s ->
  exists s', JsMap.get u (track k cid m) = Some s' /\ In x s'.
Proof.
  intros Hs Hin. rewrite get_track.
  destruct (String.eqb_spec u k) as [->|]; [|eauto].
  eexists; split; [reflexivity|].
  apply JsSetFacts.In_add. right. unfold set_at. now rewrite Hs.
Qed.

Lemma track_adds k cid (m : JsMap.t JsSet.t) :
  exists s', JsMap.get k (track k cid m) = Some s' /\ In cid s'.
Proof.
  rewrite get_track, String.eqb_refl.
  eexists; split; [reflexivity|]. apply JsSetFacts.In_add. now left.
Qed.

Section Admission.
Variable W : Type.
Variable Date_now : W -> Z.
Variable CloseArgs : Type.

Implicit Types (r : Registry W CloseArgs) (w : W).

(** ** C2 (as amended): an id that is already registered *)

(** C2.  For every registry state and every call [addConnection(id, ...)]
    where [id] is already a key of [connections] and the quota test
    passes, the call does not fail: it returns a new record that
    replaces the existing record for [id] (the keys of [connections]
    and their order are unchanged), [id] is added to the set of the new
    userId and of the new channel when they are non-empty, and no entry
    of [userConnections] or [channelConnections] is dropped. *)
Theorem C2_registered_id_is_replaced :
  forall r w cid sf cf uid ch,
    JsMap.has cid (connections r) = true ->
    over_quota r uid = None ->
    exists c r',
      addConnection Date_now cid sf cf uid ch (r, w)
      = (Returned c, (r', w)) /\
      (id c = cid /\ userId c = uid /\ channel c = ch /\
       sendFn c = sf /\ closeFn c = cf) /\
      JsMap.get cid (connections r') = Some c /\
      JsMap.keys (connections r') = JsMap.keys (connections r) /\
      (forall u, truthy_string uid = Some u ->
         exists s, JsMap.get u (userConnections r') = Some s /\ In cid s) /\
      (forall k, truthy_string ch = Some k ->
         exists s,
           JsMap.get k (channelConnections r') = Some s /\ In cid s) /\
      (forall u s x, JsMap.get u (userConnections r) = Some s -> In x s ->
         exists s', JsMap.get u (userConnections r') = Some s' /\ In x s') /\
      (forall k s x,
         JsMap.get k (channelConnections r) = Some s -> In x s ->
         exists s',
           JsMap.get k (channelConnections r') = Some s' /\ In x s').
Proof.
  intros r w cid sf cf uid ch Hhas Hquota.
  unfold addConnection. rewrite Hquota.
  eexists; eexists; split; [reflexivity|]. simpl.
  split; [now repeat split|].
  split; [now rewrite JsMapFacts.get_set, String.eqb_refl|].
  split; [unfold JsMap.set; rewrite Hhas; apply keys_replace|].
  split; [intros u ->; apply track_adds|].
  split; [intros k ->; apply track_adds|].
  split.
  - intros u s x Hs Hin.
    destruct (truthy_string uid); [now apply track_keeps with s | eauto].
  - intros k s x Hs Hin.
    destruct (truthy_string ch); [now apply track_keeps with s | eauto].
Qed.

(** ** C7: the quota boundary *)

Lemma over_quota_iff r u :
  u <> "" ->
  over_quota r (Some u)
  = if (Z.of_nat (getUserConnectionCount r u)
          >=? maxConnectionsPerUser r)%Z
    then Some u else None.
Proof.
  intros Hu. unfold over_quota, truthy_string.
  destruct (String.eqb_spec u ""); [contradiction | reflexivity].
Qed.

(** C7.  For every non-empty userId, [addConnection] accepts exactly
    while the user's set is smaller than [maxConnectionsPerUser]; the
    call that brings the count to exactly [maxConnectionsPerUser]
    succeeds, and every further [addConnection] for that user throws
    the quota error and leaves [connections], [userConnections] and
    [channelConnections] (and the world) as they were. *)
Theorem C7_quota_boundary :
  forall r w u,
    u <> "" ->
    (forall cid sf cf ch,
       returned (fst (addConnection Date_now cid sf cf (Some u) ch (r, w)))
       = true
       <-> (Z.of_nat (getUserConnectionCount r u)
            < maxConnectionsPerUser r)%Z) /\
    (forall cid sf cf ch,
       (maxConnectionsPerUser r <= Z.of_nat (getUserConnectionCount r u))%Z
       -> addConnection Date_now cid sf cf (Some u) ch (r, w)
          = (Threw (quota_error r u), (r, w))) /\
    (forall cid sf cf ch,
       (Z.of_nat (getUserConnectionCount r u) + 1
        = maxConnectionsPerUser r)%Z ->
       JsSet.has cid (set_at u (userConnections r)) = false ->
       exists c r1,
         addConnection Date_now cid sf cf (Some u) ch (r, w)
         = (Returned c, (r1, w)) /\
         Z.of_nat (getUserConnectionCount r1 u) = maxConnectionsPerUser r1
         /\
         forall cid' sf' cf' ch' w',
           addConnection Date_now cid' sf' cf' (Some u) ch' (r1, w')
           = (Threw (quota_error r1 u), (r1, w'))).
Proof.
  intros r w u Hu.
  assert (Hreject : forall r0 w0 cid sf cf ch,
            (maxConnectionsPerUser r0
             <= Z.of_nat (getUserConnectionCount r0 u))%Z ->
            addConnection Date_now cid sf cf (Some u) ch (r0, w0)
            = (Threw (quota_error r0 u), (r0, w0))).
  { intros r0 w0 cid sf cf ch Hle. unfold addConnection.
    rewrite (over_quota_iff r0 Hu).
    destruct (Z.geb_spec (Z.of_nat (getUserConnectionCount r0 u))
                (maxConnectionsPerUser r0)); [reflexivity | lia]. }
  split; [|split].
  - intros cid sf cf ch. unfold addConnection.
    rewrite (over_quota_iff r Hu).
    destruct (Z.geb_spec (Z.of_nat (getUserConnectionCount r u))
                (maxConnectionsPerUser r)); simpl; split;
      (discriminate || lia || reflexivity).
  - intros cid sf cf ch. apply Hreject.
  - intros cid sf cf ch Hcount Hnew. unfold addConnection.
    rewrite (over_quota_iff r Hu).
    destruct (Z.geb_spec (Z.of_nat (getUserConnectionCount r u))
                (maxConnectionsPerUser r)); [lia|].
    eexists; eexists; split; [reflexivity|].
    assert (Hfull : forall r1,
              userConnections r1 = track u cid (userConnections r) ->
              maxConnectionsPerUser r1 = maxConnectionsPerUser r ->
              Z.of_nat (getUserConnectionCount r1 u)
              = maxConnectionsPerUser r1).
    { intros r1 Husers Hmax. unfold getUserConnectionCount.
      rewrite Husers, get_track, String.eqb_refl, JsSetFacts.size_add.
      rewrite Hnew, Hmax, <- Hcount, count_set_at. lia. }
    split.
    + apply Hfull; simpl; [|reflexivity].
      unfold truthy_string.
      destruct (String.eqb_spec u ""); [contradiction | reflexivity].
    + intros cid' sf' cf' ch' w'. apply Hreject.
      match goal with
      | |- (_ <= Z.of_nat (getUserConnectionCount ?r1 u))%Z =>
          rewrite (Hfull r1)
      end; [lia | simpl | reflexivity].
      unfold truthy_string.
      destruct (String.eqb_spec u ""); [contradiction | reflexivity].
Qed.
End Admission.

(** ** C10: the empty string is no user and no channel *)

Section Anonymous.
Variable W : Type.
Variable Date_now : W -> Z.
Variable CloseArgs : Type.
Variable Msg : Type.
Variable sendFrame : SendFn W -> Msg -> M W unit.

Lemma track_other k cid (m : JsMap.t JsSet.t) k' :
  k' <> k -> JsMap.get k' (track k cid m) = JsMap.get k' m.
Proof.
  intros Hk. rewrite get_track.
  destruct (String.eqb_spec k' k); [contradiction | reflexivity].
Qed.

Lemma untrack_other k cid (m : JsMap.t JsSet.t) k' :
  k' <> k -> JsMap.get k' (untrack k cid m) = JsMap.get k' m.
Proof.
  intros Hk. rewrite get_untrack.
  destruct (String.eqb_spec k' k); [contradiction | reflexivity].
Qed.

Lemma tracked_empty_key key_of (c : Connection W CloseArgs) cid index :
  JsMap.get "" (tracked key_of c cid index) = JsMap.get "" index.
Proof.
  unfold tracked. destruct (truthy_string (key_of c)) as [k|] eqn:Hk;
    [|reflexivity].
  apply truthy_string_Some in Hk as [_ Hk]. apply track_other. congruence.
Qed.

Lemma untracked_empty_key key_of (c : Connection W CloseArgs) cid index :
  JsMap.get "" (untracked key_of c cid index) = JsMap.get "" index.
Proof.
  unfold untracked. destruct (truthy_string (key_of c)) as [k|] eqn:Hk;
    [|reflexivity].
  apply truthy_string_Some in Hk as [_ Hk]. apply untrack_other. congruence.
Qed.

Lemma step_no_empty_key (c : Call W CloseArgs) (st : State W CloseArgs) :
  no_empty_key (fst st) -> no_empty_key (fst (step Date_now c st)).
Proof.
  intros [Hu Hc]. destruct st as [r w].
  destruct c as [cid sf cf uid ch | cid]; simpl in *.
  - destruct (over_quota r uid); simpl; [now split|].
    set (c := {| id := cid; userId := uid; channel := ch;
                 connectedAt := Date_now w; sendFn := sf; closeFn := cf |}).
    split.
    + rewrite <- Hu.
      exact (tracked_empty_key (@userId W CloseArgs) c cid
               (userConnections r)).
    + rewrite <- Hc.
      exact (tracked_empty_key (@channel W CloseArgs) c cid
               (channelConnections r)).
  - unfold removeConnection.
    destruct (JsMap.get cid (connections r)) as [c|]; [|now split].
    split; simpl.
    + rewrite <- Hu.
      exact (untracked_empty_key (@userId W CloseArgs) c cid
               (userConnections r)).
    + rewrite <- Hc.
      exact (untracked_empty_key (@channel W CloseArgs) c cid
               (channelConnections r)).
Qed.

Lemma run_no_empty_key (calls : list (Call W CloseArgs)) :
  forall st, no_empty_key (fst st) ->
             no_empty_key (fst (run Date_now calls st)).
Proof.
  induction calls as [|c calls IH]; intros st Hst; simpl; [assumption|].
  apply IH. now apply step_no_empty_key.
Qed.

(** C10.  [addConnection] with the empty string as userId is never
    rejected by the quota and changes no entry of [userConnections];
    with the empty string as channel it changes no entry of
    [channelConnections].  Hence, after any sequence of [addConnection]
    and [removeConnection] calls on a new manager,
    [getUserConnectionCount("")] and [getChannelConnectionCount("")] are
    0, and [sendToUser("", m)] and [sendToChannel("", m)] return 0
    without sending anything. *)
Theorem C10_empty_string_is_anonymous :
  (forall r w cid sf cf ch,
     exists c (r' : Registry W CloseArgs),
       addConnection Date_now cid sf cf (Some "") ch (r, w)
       = (Returned c, (r', w)) /\
       userConnections r' = userConnections r) /\
  (forall (r : Registry W CloseArgs) w cid sf cf uid,
     channelConnections
       (fst (snd (addConnection Date_now cid sf cf uid (Some "") (r, w))))
     = channelConnections r) /\
  (forall maxPerUser w0 (calls : list (Call W CloseArgs)) message,
     let st := run Date_now calls (new_registry W CloseArgs maxPerUser, w0)
     in
     getUserConnectionCount (fst st) "" = 0 /\
     getChannelConnectionCount (fst st) "" = 0 /\
     sendToUser sendFrame "" message st = (Returned 0, st) /\
     sendToChannel sendFrame "" message st = (Returned 0, st)).
Proof.
  split; [|split].
  - intros r w cid sf cf ch. unfold addConnection. simpl.
    eexists; eexists; split; reflexivity.
  - intros r w cid sf cf uid. unfold addConnection.
    destruct (over_quota r uid); reflexivity.
  - intros maxPerUser w0 calls message st.
    assert (Hst : no_empty_key (fst st))
      by (apply run_no_empty_key; split; reflexivity).
    destruct Hst as [Hu Hc].
    unfold getUserConnectionCount, getChannelConnectionCount,
      sendToUser, sendToChannel.
    rewrite Hu, Hc. repeat split; reflexivity.
Qed.
End Anonymous.

(** C2, witness: the id [c1] of user [u1] is registered again for [u2]. *)
Lemma C2_witness :
  JsMap.has "c1" (connections (fst Sim.one_client)) = true /\
  exists c r',
    Sim.register "c1" (Some "u2") None Sim.one_client
    = (Returned c, (r', Sim.boot)) /\
    JsMap.get "c1" (connections r') = Some c /\
    userId c = Some "u2".
Proof.
  split; [reflexivity|].
  destruct (C2_registered_id_is_replaced Sim.Date_now
              (fst Sim.one_client) Sim.boot "c1"
              (Sim.socket_send "c1") (Sim.socket_end "c1")
              (Some "u2") None eq_refl eq_refl)
    as (c & r' & Hadd & (_ & Hu & _) & Hget & _).
  exists c, r'. repeat split; assumption.
Defined.

(** C2 as stated fails: registering the id [c1] a second time returns a
    record instead of throwing, and the state is not the one before: the
    record of [c1] is replaced and user [u2] gains an entry, while [c1]
    stays in the set of user [u1]. *)
Lemma C2_counterexample :
  JsMap.has "c1" (connections (fst Sim.one_client)) = true /\
  exists c st',
    Sim.register "c1" (Some "u2") None Sim.one_client = (Returned c, st') /\
    option_map (@userId _ _) (getConnection (fst Sim.one_client) "c1")
    = Some (Some "u1") /\
    option_map (@userId _ _) (getConnection (fst st') "c1")
    = Some (Some "u2") /\
    getUserConnectionCount (fst Sim.one_client) "u2" = 0 /\
    getUserConnectionCount (fst st') "u2" = 1 /\
    getUserConnectionCount (fst st') "u1" = 1.
Proof.
  split; [reflexivity|].
  eexists; eexists; split; [reflexivity|].
  repeat split; reflexivity.
Qed.

(** C7, witness: with a quota of 2 and one connection of [u1], the
    second registration succeeds and the third is rejected. *)
Lemma C7_witness :
  "u1" <> "" /\
  exists c r1,
    Sim.register "c2" (Some "u1") None Sim.one_client
    = (Returned c, (r1, Sim.boot)) /\
    Sim.register "c3" (Some "u1") None (r1, Sim.boot)
    = (Threw (quota_error r1 "u1"), (r1, Sim.boot)).
Proof.
  split; [discriminate|].
  destruct (C7_quota_boundary Sim.Date_now (fst Sim.one_client) Sim.boot
              (u := "u1")) as (_ & _ & Hlast); [discriminate|].
  destruct (Hlast "c2" (Sim.socket_send "c2")
              (@Sim.socket_end WS.CloseArgs "c2") None
              eq_refl eq_refl) as (c & r1 & Hadd & _ & Hnext).
  exists c, r1. split; [exact Hadd | apply Hnext].
Defined.

(** ** The record's closures: [close] and [send] *)

Section Closures.
Variable W : Type.
Variable Date_now : W -> Z.
Variable CloseArgs : Type.
Variable Msg : Type.
Variable sendFrame : SendFn W -> Msg -> M W unit.

Implicit Types (r : Registry W CloseArgs) (w : W)
  (c : Connection W CloseArgs).

Lemma removeConnection_absent r cid :
  getConnection (removeConnection cid r) cid = None.
Proof.
  unfold getConnection, removeConnection.
  destruct (JsMap.get cid (connections r)) eqn:Hget; simpl.
  - now rewrite JsMapFacts.get_delete, String.eqb_refl.
  - assumption.
Qed.

Lemma removeConnection_idempotent r cid :
  removeConnection cid (removeConnection cid r) = removeConnection cid r.
Proof.
  pose proof (removeConnection_absent r cid) as Habs.
  unfold getConnection in Habs.
  unfold removeConnection at 1. now rewrite Habs.
Qed.

Lemma addConnection_record r w cid sf cf uid ch c st1 :
  addConnection Date_now cid sf cf uid ch (r, w) = (Returned c, st1) ->
  id c = cid /\ sendFn c = sf /\ closeFn c = cf /\
  getConnection (fst st1) cid = Some c.
Proof.
  unfold addConnection. destruct (over_quota r uid); [discriminate|].
  intros [= <- <-]. simpl. repeat split; try reflexivity.
  unfold getConnection. simpl.
  now rewrite JsMapFacts.get_set, String.eqb_refl.
Qed.

Lemma send_run c message r w :
  send sendFrame c message (r, w)
  = (fst (sendFrame (sendFn c) message w),
     (r, snd (sendFrame (sendFn c) message w))).
Proof.
  unfold send, liftW. simpl.
  destruct (sendFrame (sendFn c) message w); reflexivity.
Qed.

Lemma close_run c args r w :
  close c args (r, w)
  = match closeFn c args w with
    | (Returned _, w') => (Returned tt, (removeConnection (id c) r, w'))
    | (Threw e, w') => (Threw e, (r, w'))
    end.
Proof.
  unfold close, bind, liftW. simpl.
  destruct (closeFn c args w) as [[u|e] w']; reflexivity.
Qed.

Lemma close_times_run c args n :
  never_throws (closeFn c) ->
  forall r w,
    close_times (S n) c args (r, w)
    = (Returned tt,
       (removeConnection (id c) r,
        Nat.iter (S n) (fun w => snd (closeFn c args w)) w)).
Proof.
  intros Hok. induction n as [|n IH]; intros r w.
  - simpl. unfold bind. rewrite close_run.
    specialize (Hok args w).
    destruct (closeFn c args w) as [[u|e] w']; [reflexivity | discriminate].
  - rewrite Nat.iter_succ_r.
    change (close_times (S (S n)) c args)
      with (bind (close c args) (fun _ => close_times (S n) c args)).
    unfold bind at 1. rewrite close_run.
    pose proof (Hok args w) as Hw.
    destruct (closeFn c args w) as [[u|e] w']; [|discriminate].
    rewrite IH, removeConnection_idempotent. reflexivity.
Qed.

(** ** C6 (as amended): [close] called several times *)

(** C6.  For every record returned by [addConnection] whose [closeFn]
    returns normally, and every N >= 1, calling the record's [close] N
    times invokes [closeFn] N times, once per call; the first call
    removes the record from the registry and the later calls leave the
    registry as the first one left it. *)
Theorem C6_close_calls_closeFn_every_time :
  forall r w cid sf cf uid ch c st1 args n,
    addConnection Date_now cid sf cf uid ch (r, w) = (Returned c, st1) ->
    never_throws cf ->
    1 <= n ->
    close_times n c args st1
    = (Returned tt,
       (removeConnection cid (fst st1),
        Nat.iter n (fun w => snd (cf args w)) (snd st1))) /\
    getConnection (removeConnection cid (fst st1)) cid = None.
Proof.
  intros r w cid sf cf uid ch c st1 args n Hadd Hok Hn.
  destruct (addConnection_record _ _ _ _ _ _ _ Hadd)
    as (Hid & _ & Hcf & _).
  split; [|apply removeConnection_absent].
  destruct n as [|n]; [lia|]. destruct st1 as [r1 w1].
  rewrite close_times_run by (rewrite Hcf; exact Hok).
  rewrite Hid, Hcf. reflexivity.
Qed.

(** ** C9: a removed record still sends *)

(** C9.  After [removeConnection(id)], or after the record's own
    [close()], the record returned by [addConnection] is no longer
    registered, yet its [send] still hands the message to the encoder
    with the captured [sendFn], as it does while registered, and its
    [close] still calls the captured [closeFn]; neither touches the
    registry any further. *)
Theorem C9_removed_record_still_sends :
  forall r w cid sf cf uid ch c st1,
    addConnection Date_now cid sf cf uid ch (r, w) = (Returned c, st1) ->
    let removed := removeConnection cid (fst st1) in
    getConnection (fst st1) cid = Some c /\
    getConnection removed cid = None /\
    (forall message w',
       send sendFrame c message (fst st1, w')
       = (fst (sendFrame sf message w'),
          (fst st1, snd (sendFrame sf message w'))) /\
       send sendFrame c message (removed, w')
       = (fst (sendFrame sf message w'),
          (removed, snd (sendFrame sf message w')))) /\
    (forall args st2 message,
       close c args st1 = (Returned tt, st2) ->
       fst st2 = removed /\
       send sendFrame c message st2
       = (fst (sendFrame sf message (snd st2)),
          (removed, snd (sendFrame sf message (snd st2))))) /\
    (forall args w',
       close c args (removed, w')
       = (fst (cf args w'), (removed, snd (cf args w')))).
Proof.
  intros r w cid sf cf uid ch c st1 Hadd removed.
  destruct (addConnection_record _ _ _ _ _ _ _ Hadd)
    as (Hid & Hsf & Hcf & Hreg).
  split; [assumption|].
  split; [apply removeConnection_absent|].
  split; [|split].
  - intros message w'. rewrite !send_run, Hsf. now split.
  - intros args st2 message. destruct st1 as [r1 w1].
    rewrite close_run, Hid.
    destruct (closeFn c args w1) as [[u|e] w2]; [|discriminate].
    intros [= <-]. simpl. split; [reflexivity|].
    rewrite send_run, Hsf. reflexivity.
  - intros args w'. rewrite close_run, Hid, Hcf.
    destruct (cf args w') as [[[]|e] w2]; simpl; [|reflexivity].
    unfold removed. now rewrite removeConnection_idempotent.
Qed.
End Closures.

(** C6, witness: three calls of [close] end the socket three times. *)
Lemma C6_witness :
  exists c st1,
    Sim.register "c1" None None (Sim.fresh_manager 10) = (Returned c, st1) /\
    never_throws (@Sim.socket_end WS.CloseArgs "c1") /\
    1 <= 3 /\
    Sim.closes "c1" (snd (snd (close_times 3 c Sim.no_args st1))) = 3 /\
    getConnection (fst (snd (close_times 3 c Sim.no_args st1))) "c1" = None.
Proof.
  eexists; eexists. split; [reflexivity|].
  assert (Hok : never_throws (@Sim.socket_end WS.CloseArgs "c1"))
    by (intros a w; reflexivity).
  split; [exact Hok|]. split; [lia|].
  destruct (C6_close_calls_closeFn_every_time Sim.Date_now
              (fst (Sim.fresh_manager 10)) Sim.boot "c1"
              (Sim.socket_send "c1") None None Sim.no_args (n := 3)
              eq_refl Hok (le_S _ _ (le_S _ _ (le_n 1))))
    as [Hrun Habsent].
  split.
  - exact (f_equal (fun res => Sim.closes "c1" (snd (snd res))) Hrun).
  - exact (eq_trans
             (f_equal (fun res => getConnection (fst (snd res)) "c1") Hrun)
             Habsent).
Defined.

(** C6 as stated fails: two calls of [close] call [closeFn] twice. *)
Lemma C6_counterexample :
  exists c st1,
    Sim.register "c1" None None (Sim.fresh_manager 10) = (Returned c, st1) /\
    Sim.closes "c1" (snd (snd (close_times 1 c Sim.no_args st1))) = 1 /\
    Sim.closes "c1" (snd (snd (close_times 2 c Sim.no_args st1))) = 2.
Proof.
  eexists; eexists. repeat split; reflexivity.
Qed.

(** C9, witness: a record removed from the registry still writes the
    encoded message to its socket. *)
Lemma C9_witness :
  exists c st1,
    Sim.register "c1" (Some "u1") None (Sim.fresh_manager 10)
    = (Returned c, st1) /\
    getConnection (removeConnection "c1" (fst st1)) "c1" = None /\
    send Sim.wsFrame c Sim.note (removeConnection "c1" (fst st1), Sim.boot)
    = (Returned tt,
       (removeConnection "c1" (fst st1),
        Sim.record
          (Sim.Wrote "c1"
             (Sim.JSON_stringify
                (WS.stamped Sim.note (Sim.Date_now Sim.boot))))
          Sim.boot)).
Proof.
  eexists; eexists. split; [reflexivity|].
  destruct (C9_removed_record_still_sends Sim.Date_now Sim.wsFrame
              (fst (Sim.fresh_manager 10)) Sim.boot "c1"
              (Sim.socket_send "c1") (Sim.socket_end "c1")
              (Some "u1") None eq_refl)
    as (_ & Habsent & Hsend & _).
  split; [exact Habsent|].
  exact (proj2 (Hsend Sim.note Sim.boot)).
Defined.

(** ** The publishers *)

Section Publishers.
Variable W : Type.
Variable CloseArgs : Type.
Variable Msg : Type.
Variable sendFrame : SendFn W -> Msg -> M W unit.
Hypothesis encoder : hands_to_sendFn sendFrame.

Variable message : Msg.

Implicit Types (r : Registry W CloseArgs) (w : W)
  (c : Connection W CloseArgs) (tgts : list (Connection W CloseArgs)).

Lemma frame_returns (sf : SendFn W) w :
  never_throws sf -> returned (fst (sendFrame sf message w)) = true.
Proof.
  intros Hok. destruct (encoder sf message w) as [data ->]. apply Hok.
Qed.

Lemma frame_throws (sf : SendFn W) w :
  always_throws sf -> returned (fst (sendFrame sf message w)) = false.
Proof.
  intros Hbad. destruct (encoder sf message w) as [data ->]. apply Hbad.
Qed.

Lemma publish_nil sent (st : State W CloseArgs) :
  aborting_publish sendFrame message [] sent st (Returned sent, st).
Proof.
  split; [|split; [|split; [|split]]]; simpl.
  - reflexivity.
  - intros n [= <-]. lia.
  - intros _. f_equal. lia.
  - intros [c [[] _]].
  - intros before c after Heq. now destruct before.
Qed.

(** One turn of a publisher's loop: the frame goes to [c]; the loop
    goes on as [k] when the send returns and is abandoned when it
    throws. *)
Lemma publish_cons c tgts sent r w
    (k : W -> Outcome nat * State W CloseArgs) :
  (forall w', aborting_publish sendFrame message
                tgts (S sent) (r, w') (k w')) ->
  aborting_publish sendFrame message (c :: tgts) sent (r, w)
    match sendFrame (sendFn c) message w with
    | (Returned _, w') => k w'
    | (Threw e, w') => (Threw e, (r, w'))
    end.
Proof.
  intros Hrest.
  pose proof (@frame_returns (sendFn c) w) as Hgood.
  pose proof (@frame_throws (sendFn c) w) as Hbad.
  unfold aborting_publish, sends_to.
  destruct (sendFrame (sendFn c) message w) as [[u|e] w'] eqn:Hsend;
    simpl in *.
  - destruct (Hrest w') as (Hreg & Hcount & Hall & Hsome & Hstop).
    split; [|split; [|split; [|split]]].
    + exact Hreg.
    + intros n Hn. rewrite (Hcount n Hn). simpl. lia.
    + intros Hok. rewrite Hall by (intros c' Hc'; apply Hok; now right).
      f_equal. simpl. lia.
    + intros [c' [[<-|Hin] Hc']].
      * specialize (Hbad Hc'). discriminate.
      * apply Hsome. eauto.
    + intros before c0 after Heq Hbefore Hc0.
      destruct before as [|b before']; simpl in Heq; injection Heq as <- ->.
      * specialize (Hbad Hc0). discriminate.
      * simpl. rewrite Hsend. simpl.
        apply (Hstop before' c0 after eq_refl); [|assumption].
        intros c' Hc'. apply Hbefore. now right.
  - split; [|split; [|split; [|split]]].
    + reflexivity.
    + intros n [=].
    + intros Hok. specialize (Hgood (Hok c (or_introl eq_refl))).
      discriminate.
    + intros _. exists e. reflexivity.
    + intros before c0 after Heq Hbefore Hc0.
      destruct before as [|b before']; simpl in Heq; injection Heq as <- ->.
      * simpl. now rewrite Hsend.
      * specialize (Hgood (Hbefore c (or_introl eq_refl))). discriminate.
Qed.

Lemma send_all_aborting tgts :
  forall sent r w,
    aborting_publish sendFrame message tgts sent (r, w)
      (send_all sendFrame tgts message sent (r, w)).
Proof.
  induction tgts as [|c tgts IH]; intros sent r w.
  - apply publish_nil.
  - pose proof (publish_cons c (sent := sent) (r := r) w
                  (fun w' => send_all sendFrame tgts message (S sent)
                               (r, w'))
                  (fun w' => IH (S sent) r w')) as Hstep.
    simpl. unfold bind. rewrite send_run.
    destruct (sendFrame (sendFn c) message w) as [[u|e] w']; exact Hstep.
Qed.

Lemma send_each_aborting (ids : list string) :
  forall sent r w,
    aborting_publish sendFrame message (registered ids r) sent (r, w)
      (send_each sendFrame ids message sent (r, w)).
Proof.
  induction ids as [|i ids IH]; intros sent r w.
  - apply publish_nil.
  - simpl. unfold bind, sendToConnection. simpl.
    destruct (JsMap.get i (connections r)) as [c|]; simpl.
    + pose proof (publish_cons c (sent := sent) (r := r) w
                    (fun w' => send_each sendFrame ids message (S sent)
                                 (r, w'))
                    (fun w' => IH (S sent) r w')) as Hstep.
      unfold bind. rewrite send_run.
      destruct (sendFrame (sendFn c) message w) as [[u|e] w']; exact Hstep.
    + apply IH.
Qed.

End Publishers.

(** Both encoders of the repository hand one frame to [sendFn] and do
    nothing else. *)
Lemma sendMessage_hands_to_sendFn W (Date_now : W -> Z) JSON_stringify :
  hands_to_sendFn (WS.sendMessage Date_now JSON_stringify).
Proof.
  intros sf message w. eexists. reflexivity.
Qed.

Lemma sendEvent_hands_to_sendFn W JSON_stringify :
  hands_to_sendFn (SSE.sendEvent (W := W) JSON_stringify).
Proof.
  intros sf event w. eexists. reflexivity.
Qed.

Lemma sendMessage_encodes W (Date_now : W -> Z) JSON_stringify :
  encodes (WS.sendMessage Date_now JSON_stringify)
    (WS.encoded Date_now JSON_stringify).
Proof.
  intros sf message w. reflexivity.
Qed.

Lemma sendEvent_encodes W JSON_stringify :
  encodes (SSE.sendEvent (W := W) JSON_stringify)
    (fun event _ => SSE.event_frame JSON_stringify event).
Proof.
  intros sf event w. reflexivity.
Qed.

(** ** C3 (as amended): a failing [sendFn] abandons the publisher *)

Section Abandon.
Variable W : Type.
Variable CloseArgs : Type.
Variable Msg : Type.
Variable sendFrame : SendFn W -> Msg -> M W unit.
Variable encode : Msg -> W -> string.
Hypothesis encoder : encodes sendFrame encode.

Variable message : Msg.

Implicit Types (r : Registry W CloseArgs) (w : W)
  (c : Connection W CloseArgs) (tgts : list (Connection W CloseArgs)).

Lemma send_call c r w :
  send sendFrame c message (r, w)
  = (fst (sendFn_call encode c message w),
     (r, snd (sendFn_call encode c message w))).
Proof.
  rewrite send_run. unfold sendFn_call. now rewrite encoder.
Qed.

(** The loop of [broadcast] is the walk over the records. *)
Lemma send_all_deliver tgts :
  forall sent r w,
    send_all sendFrame tgts message sent (r, w)
    = (fst (deliver encode message tgts sent w),
       (r, snd (deliver encode message tgts sent w))).
Proof.
  induction tgts as [|c tgts IH]; intros sent r w; [reflexivity|].
  simpl. unfold bind. rewrite send_call.
  destruct (sendFn_call encode c message w) as [[u|e] w'];
    [apply IH | reflexivity].
Qed.

(** The loop of [sendToUser] and [sendToChannel] is the walk over the
    records registered under the ids of the set. *)
Lemma send_each_deliver (ids : list string) :
  forall sent r w,
    send_each sendFrame ids message sent (r, w)
    = (fst (deliver encode message (registered ids r) sent w),
       (r, snd (deliver encode message (registered ids r) sent w))).
Proof.
  induction ids as [|i ids IH]; intros sent r w; [reflexivity|].
  simpl. unfold bind, sendToConnection. simpl.
  destruct (JsMap.get i (connections r)) as [c|]; simpl.
  - unfold bind. rewrite send_call.
    destruct (sendFn_call encode c message w) as [[u|e] w'];
      [apply IH | reflexivity].
  - apply IH.
Qed.

Lemma publish_deliver (t : Target) r w :
  publish sendFrame t message (r, w)
  = (fst (deliver encode message (targets t r) 0 w),
     (r, snd (deliver encode message (targets t r) 0 w))).
Proof.
  destruct t as [u | ch |]; simpl.
  - unfold sendToUser, set_at. simpl.
    destruct (JsMap.get u (userConnections r)) as [ids|];
      [apply send_each_deliver | reflexivity].
  - unfold sendToChannel, set_at. simpl.
    destruct (JsMap.get ch (channelConnections r)) as [ids|];
      [apply send_each_deliver | reflexivity].
  - apply send_all_deliver.
Qed.

Lemma deliver_all_return tgts :
  forall sent w,
    all_return encode message tgts w ->
    deliver encode message tgts sent w
    = (Returned (sent + length tgts), delivered_to encode message tgts w).
Proof.
  induction tgts as [|c tgts IH]; intros sent w Hall; simpl.
  - f_equal. f_equal. lia.
  - destruct Hall as [Hc Hrest].
    destruct (sendFn_call encode c message w) as [[u|e] w'];
      simpl in *; [|discriminate].
    rewrite (IH (S sent) w' Hrest). f_equal. f_equal. lia.
Qed.

Lemma deliver_first_failure before :
  forall c after e sent w,
    all_return encode message before w ->
    fst (sendFn_call encode c message
           (delivered_to encode message before w)) = Threw e ->
    deliver encode message (before ++ c :: after) sent w
    = (Threw e,
       snd (sendFn_call encode c message
              (delivered_to encode message before w))).
Proof.
  induction before as [|b before IH]; intros c after e sent w Hall Hc;
    simpl in *.
  - destruct (sendFn_call encode c message w) as [[u|e'] w'];
      simpl in *; [discriminate|]. now injection Hc as ->.
  - destruct Hall as [Hb Hrest].
    destruct (sendFn_call encode b message w) as [[u|e'] w'];
      simpl in *; [|discriminate].
    now apply IH.
Qed.

Lemma deliver_threw tgts :
  forall sent w e,
    fst (deliver encode message tgts sent w) = Threw e ->
    exists before c after,
      tgts = before ++ c :: after /\
      all_return encode message before w /\
      fst (sendFn_call encode c message
             (delivered_to encode message before w)) = Threw e.
Proof.
  induction tgts as [|c tgts IH]; intros sent w e He; simpl in *;
    [discriminate|].
  destruct (sendFn_call encode c message w) as [[[]|e'] w'] eqn:Hc;
    simpl in *.
  - destruct (IH (S sent) w' e He) as (before & c' & after & -> & Hall & Hc').
    exists (c :: before), c', after. simpl. rewrite Hc. simpl.
    split; [reflexivity|]. split; [now split | exact Hc'].
  - injection He as ->. exists [], c, tgts. simpl. rewrite Hc.
    split; [reflexivity|]. split; [exact I | reflexivity].
Qed.

Lemma deliver_returned tgts :
  forall sent w n,
    fst (deliver encode message tgts sent w) = Returned n ->
    n = sent + length tgts /\ all_return encode message tgts w.
Proof.
  induction tgts as [|c tgts IH]; intros sent w n Hn; simpl in *.
  - injection Hn as <-. split; [lia | exact I].
  - destruct (sendFn_call encode c message w) as [[[]|e] w'];
      simpl in *; [|discriminate].
    destruct (IH (S sent) w' n Hn) as [-> Hrest].
    split; [lia | now split].
Qed.

(** C3.  For every multi-target publish operation ([sendToUser],
    [sendToChannel], [broadcast]) and every registry state, with the
    targets taken in the order in which the operation visits them: the
    operation removes no connection and changes no index; when the call
    of [sendFn] returns for every target, the operation returns the
    number of targets, each of them having been written to in turn; when
    the call of [sendFn] throws [e] for a target and returned for the
    targets before it, the operation is abandoned there: it throws [e]
    to its caller and leaves the world as that call left it, nothing
    being handed to the targets after it; whenever the operation
    returns a count, that count is the number of targets and the call
    of [sendFn] returned for each of them; and whenever it throws, what
    it throws was thrown by the [sendFn] of a target.  (The hypothesis
    [encoder] says that [connection.send] makes one frame of the message
    and hands it to [sendFn]; it holds of [sendMessage] and of
    [sendEvent].) *)
Theorem C3_publish_is_abandoned_on_failure :
  forall (t : Target) (st : State W CloseArgs),
    let tgts := targets t (fst st) in
    let res := publish sendFrame t message st in
    fst (snd res) = fst st /\
    (all_return encode message tgts (snd st) ->
     res = (Returned (length tgts),
            (fst st, delivered_to encode message tgts (snd st)))) /\
    (forall before c after e,
       tgts = before ++ c :: after ->
       all_return encode message before (snd st) ->
       fst (sendFn_call encode c message
              (delivered_to encode message before (snd st))) = Threw e ->
       res = (Threw e,
              (fst st,
               snd (sendFn_call encode c message
                      (delivered_to encode message before (snd st)))))) /\
    (forall n,
       fst res = Returned n ->
       n = length tgts /\ all_return encode message tgts (snd st)) /\
    (forall e,
       fst res = Threw e ->
       exists before c after,
         tgts = before ++ c :: after /\
         all_return encode message before (snd st) /\
         fst (sendFn_call encode c message
                (delivered_to encode message before (snd st))) = Threw e).
Proof.
  intros t [r w] tgts res. unfold res, tgts. cbn [fst snd].
  rewrite publish_deliver. cbn [fst snd].
  split; [reflexivity|]. split; [|split; [|split]].
  - intros Hall. rewrite deliver_all_return by exact Hall. reflexivity.
  - intros before c after e -> Hall Hc.
    erewrite deliver_first_failure; [reflexivity | exact Hall | exact Hc].
  - intros n Hn. apply deliver_returned in Hn. exact Hn.
  - intros e He. apply deliver_threw in He. exact He.
Qed.
End Abandon.

(** C3, witness: [sendToUser("u1", m)] with two healthy sockets returns 2
    and writes to both; [sendToChannel("x", m)] with the dead socket of
    [c1] first throws its write error and writes nothing to [c2]. *)
Lemma C3_witness :
  encodes Sim.wsFrame Sim.wsEncode /\
  publish Sim.wsFrame (ToUser "u1") Sim.note Sim.three_clients
  = (Returned 2,
     Sim.sent_on "c2" Sim.note (Sim.sent_on "c1" Sim.note Sim.three_clients))
  /\
  targets (ToChannel "x") (fst Sim.channel_x)
  = [] ++ Sim.dead_connection "c1" None (Some "x")
    :: [Sim.connection "c2" None (Some "x")] /\
  publish Sim.wsFrame (ToChannel "x") Sim.note Sim.channel_x
  = (Threw (ThrownError Error "write EPIPE"), Sim.channel_x).
Proof.
  assert (Henc : encodes Sim.wsFrame Sim.wsEncode)
    by (intros sf m w; reflexivity).
  split; [exact Henc|]. split; [|split; [reflexivity|]].
  - refine (proj1 (proj2 (C3_publish_is_abandoned_on_failure Henc Sim.note
                             (ToUser "u1") Sim.three_clients)) _).
    repeat split.
  - exact (proj1 (proj2 (proj2
             (C3_publish_is_abandoned_on_failure Henc Sim.note
                (ToChannel "x") Sim.channel_x)))
             [] (Sim.dead_connection "c1" None (Some "x"))
             [Sim.connection "c2" None (Some "x")]
             (ThrownError Error "write EPIPE") eq_refl I eq_refl).
Defined.

(** C3 as stated fails: with [c1] (dead socket) and [c2] on channel [x],
    [sendToChannel("x", m)] and [broadcast(m)] throw the write error of
    [c1] instead of returning 1; [c1] is still registered and indexed, and
    nothing was written to [c2]. *)
Lemma C3_counterexample :
  map (@id _ _) (targets (ToChannel "x") (fst Sim.channel_x)) = ["c1"; "c2"]
  /\
  publish Sim.wsFrame (ToChannel "x") Sim.note Sim.channel_x
  = (Threw (ThrownError Error "write EPIPE"), Sim.channel_x) /\
  publish Sim.wsFrame ToAll Sim.note Sim.channel_x
  = (Threw (ThrownError Error "write EPIPE"), Sim.channel_x) /\
  getChannelConnectionCount (fst Sim.channel_x) "x" = 2 /\
  Sim.wire (snd Sim.channel_x) = [].
Proof.
  repeat split; reflexivity.
Qed.

(** ** The SSE encoder *)

Lemma string_app_assoc (a b c : string) :
  ((a ++ b) ++ c = a ++ (b ++ c))%string.
Proof.
  induction a as [|x a IH]; simpl; [reflexivity | now rewrite IH].
Qed.


Section SseEncoder.
Variable W : Type.
Variable JSON_stringify : JsValue -> string.

Lemma event_frame_spec (event : SSEEvent.t) :
  SSE.event_frame JSON_stringify event
  = sse_frame_spec JSON_stringify (drop_falsy event).
Proof.
  unfold SSE.event_frame, sse_frame_spec, drop_falsy, sse_line,
    SSE.data_text. simpl.
  destruct (truthy_string (SSEEvent.id event)) as [i|];
    destruct (truthy_string (SSEEvent.event event)) as [e|];
    destruct (truthy_number (SSEEvent.retry event)) as [ms|];
    destruct (SSEEvent.data event) as [s|v];
    simpl; rewrite ?string_app_assoc; simpl;
    rewrite ?string_app_assoc; simpl; rewrite ?string_app_assoc;
    reflexivity.
Qed.

(** An event none of whose fields is present but empty or zero is its
    own [drop_falsy]. *)
Lemma drop_falsy_truthy (event : SSEEvent.t) :
  SSEEvent.id event <> Some "" ->
  SSEEvent.event event <> Some "" ->
  SSEEvent.retry event <> Some 0%Z ->
  drop_falsy event = event.
Proof.
  destruct event as [i e d ms]. unfold drop_falsy. simpl.
  intros Hi He Hms.
  assert (Hs : forall o, o <> Some "" -> truthy_string o = o).
  { intros [s|] Ho; simpl; [|reflexivity].
    destruct (String.eqb_spec s ""); [congruence | reflexivity]. }
  assert (Hn : truthy_number ms = ms).
  { destruct ms as [z|]; simpl; [|reflexivity].
    destruct (Z.eqb_spec z 0); [congruence | reflexivity]. }
  now rewrite (Hs i Hi), (Hs e He), Hn.
Qed.

(** ** C8 (as amended): the frame of an event *)

(** C8.  For every SSEEvent, [sendEvent] hands to [sendFn] exactly the
    concatenation, in order, of the lines [id: <id>], [event: <event>],
    [data: <data>], [retry: <ms>], each of the optional ones when its
    field is present and is not the empty string (id, event) or zero
    (retry), followed by one blank line, where <data> is the raw string
    when [data] is a string and [JSON.stringify(data)] otherwise; the
    data line is in every frame. *)
Theorem C8_sse_frame :
  forall (sendFn0 : SendFn W) (event : SSEEvent.t),
    SSE.sendEvent JSON_stringify sendFn0 event
    = sendFn0 (sse_frame_spec JSON_stringify (drop_falsy event)) /\
    exists before after : string,
      SSE.event_frame JSON_stringify event
      = (before
         ++ sse_line "data"
              (SSE.data_text JSON_stringify (SSEEvent.data event))
         ++ after ++ LF)%string.
Proof.
  intros sendFn0 event. split.
  - unfold SSE.sendEvent. now rewrite event_frame_spec.
  - rewrite event_frame_spec.
    unfold sse_frame_spec, drop_falsy, SSE.data_text.
    cbn [SSEEvent.id SSEEvent.event SSEEvent.data SSEEvent.retry].
    exists (match truthy_string (SSEEvent.id event) with
            | Some i => sse_line "id" i
            | None => ""
            end
            ++ match truthy_string (SSEEvent.event event) with
               | Some e => sse_line "event" e
               | None => ""
               end)%string.
    exists match truthy_number (SSEEvent.retry event) with
           | Some ms => sse_line "retry" (Number_toString ms)
           | None => ""
           end.
    rewrite !string_app_assoc. reflexivity.
Qed.
End SseEncoder.

(** C8 as stated fails: an event whose [id] is present but empty gets no
    [id:] line, and one whose [retry] is 0 gets no [retry:] line. *)
Lemma C8_counterexample :
  SSE.sendEvent Sim.JSON_stringify (Sim.socket_send "s")
    Sim.empty_id_event Sim.boot
  = Sim.socket_send "s" ("data: x" ++ LF ++ LF)%string Sim.boot /\
  sse_frame_spec Sim.JSON_stringify Sim.empty_id_event
  = ("id: " ++ LF ++ "data: x" ++ LF ++ LF)%string /\
  SSE.event_frame Sim.JSON_stringify Sim.zero_retry_event
  = ("event: tick" ++ LF
     ++ "data: " ++ Sim.JSON_stringify (JsObject [("n", JsNumber 1)]) ++ LF
     ++ LF)%string /\
  sse_frame_spec Sim.JSON_stringify Sim.zero_retry_event
  <> SSE.event_frame Sim.JSON_stringify Sim.zero_retry_event.
Proof.
  repeat split; try reflexivity. vm_compute. discriminate.
Qed.

(** ** The inbound dispatcher *)

(** Induction on a value, with the elements of an array and the members
    of an object in hand. *)
Lemma JsValue_nested_ind (P : JsValue -> Prop) :
  P JsUndefined -> P JsNull ->
  (forall b, P (JsBool b)) ->
  (forall z, P (JsNumber z)) ->
  (forall s, P (JsString s)) ->
  (forall items, Forall P items -> P (JsArray items)) ->
  (forall fields, Forall (fun kv => P (snd kv)) fields ->
                  P (JsObject fields)) ->
  forall v, P v.
Proof.
  intros Hundefined Hnull Hbool Hnumber Hstring Harray Hobject.
  fix IH 1. intros [ | | b | z | s | items | fields].
  - exact Hundefined.
  - exact Hnull.
  - apply Hbool.
  - apply Hnumber.
  - apply Hstring.
  - apply Harray. revert items. fix IHitems 1.
    intros [|x rest]; constructor; [apply IH | apply IHitems].
  - apply Hobject. revert fields. fix IHfields 1.
    intros [|[k x] rest]; constructor; [apply IH | apply IHfields].
Qed.

(** One step of the join of an array. *)
Lemma ToString_cons (x : JsValue) (rest : list JsValue) :
  ToString (JsArray (x :: rest))
  = match match x with
          | JsUndefined | JsNull => Returned ""
          | _ => ToString x
          end with
    | Threw e => Threw e
    | Returned text =>
        match rest with
        | [] => Returned text
        | _ :: _ =>
            match ToString (JsArray rest) with
            | Threw e' => Threw e'
            | Returned r => Returned (text ++ "," ++ r)%string
            end
        end
    end.
Proof. reflexivity. Qed.

(** A template literal throws nothing but the [TypeError] of an object
    without a callable [toString]. *)
Lemma ToString_throws :
  forall v e, ToString v = Threw e -> e = not_primitive.
Proof.
  induction v as [ | | b | z | s | items IHitems | fields _]
    using JsValue_nested_ind; intros e; try discriminate.
  - destruct b; discriminate.
  - induction IHitems as [|x rest Hx _ IHrest]; [discriminate|].
    rewrite ToString_cons.
    assert (Helem : forall e', match x with
                               | JsUndefined | JsNull => Returned ""
                               | _ => ToString x
                               end = Threw e' -> e' = not_primitive).
    { intros e' He'. destruct x; try discriminate He'; exact (Hx _ He'). }
    destruct (match x with
              | JsUndefined | JsNull => Returned ""
              | _ => ToString x
              end) as [text|e'].
    + destruct rest as [|y rest']; [discriminate|].
      destruct (ToString (JsArray (y :: rest'))) as [r|e''];
        [discriminate|].
      intros [= <-]. now apply IHrest.
    + intros [= <-]. now apply Helem.
  - simpl. destruct (JsMap.has "toString" fields); [|discriminate].
    now intros [= <-].
Qed.

Section Dispatch.
Variable W : Type.
Variable Date_now : W -> Z.
Variable JSON_parse : string -> Parsed.
Variable JSON_stringify : JsValue -> string.

Notation wsend := (WS.wsend Date_now JSON_stringify).
Notation dispatch := (WS.dispatch Date_now JSON_parse JSON_stringify).
Notation report := (WS.report Date_now JSON_stringify).
Notation handleMessage :=
  (WS.handleMessage Date_now JSON_parse JSON_stringify).

Implicit Types (d : WS.Dispatcher W) (c : WS.WsConnection W)
  (st : WS.WsState W).

Lemma wsend_run c frame st :
  wsend c frame st
  = (fst (sendFn c (JSON_stringify (WS.stamped frame (Date_now (snd st))))
            (snd st)),
     (fst st,
      snd (sendFn c (JSON_stringify (WS.stamped frame (Date_now (snd st))))
             (snd st)))).
Proof.
  destruct st as [r w]. unfold WS.wsend. rewrite send_run. reflexivity.
Qed.

Lemma wsend_returns c frame st :
  never_throws (sendFn c) -> returned (fst (wsend c frame st)) = true.
Proof.
  intros Hok. rewrite wsend_run. apply Hok.
Qed.

Lemma handleMessage_registered d cid raw st c :
  getConnection (fst st) cid = Some c ->
  handleMessage d cid raw st
  = try_catch (dispatch d c raw) (report c) st.
Proof.
  intros Hc. unfold WS.handleMessage. now rewrite Hc.
Qed.

(** The steps of [dispatch] once the frame parsed and has a type. *)
Lemma dispatch_typed d c raw st v ty :
  JSON_parse raw = ParseOk v ->
  WS.type_of v = Returned ty ->
  truthy ty = true ->
  dispatch d c raw st
  = if (Z.of_nat (utf16_length raw) >? WS.maxMessageSize d)%Z
    then (Threw (ThrownError Error
                   "Message size exceeds maximum allowed size"), st)
    else match WS.find_handler ty d with
         | Some handler => handler c v st
         | None =>
             match ToString ty with
             | Returned text =>
                 wsend c
                   (WS.error_frame
                      (JsString ("No handler found for message type: "
                                   ++ text)%string)) st
             | Threw e => (Threw e, st)
             end
         end.
Proof.
  intros Hparse Hty Htruthy.
  unfold WS.dispatch, bind, WS.lift_outcome, WS.parse.
  rewrite Hparse, Hty, Htruthy. cbn [negb].
  destruct (Z.of_nat (utf16_length raw) >? WS.maxMessageSize d)%Z;
    [reflexivity|].
  destruct (WS.find_handler ty d); [reflexivity|].
  destruct (ToString ty); reflexivity.
Qed.

(** The steps of [dispatch] before the size check. *)
Lemma dispatch_unparsed d c raw st m :
  JSON_parse raw = ParseFail m ->
  dispatch d c raw st = (Threw (ThrownError SyntaxError m), st).
Proof.
  intros Hparse.
  unfold WS.dispatch, bind, WS.lift_outcome, WS.parse.
  now rewrite Hparse.
Qed.

Lemma dispatch_untyped d c raw st v ty :
  JSON_parse raw = ParseOk v ->
  WS.type_of v = Returned ty ->
  truthy ty = false ->
  dispatch d c raw st
  = (Threw (ThrownError Error "Message type is required"), st).
Proof.
  intros Hparse Hty Hfalsy.
  unfold WS.dispatch, bind, WS.lift_outcome, WS.parse.
  now rewrite Hparse, Hty, Hfalsy.
Qed.

(** The [catch] block on an error object. *)
Lemma report_error c ctor m st :
  report c (ThrownError ctor m) st
  = wsend c (WS.error_frame (JsString m)) st.
Proof. reflexivity. Qed.

(** ** C5 (as amended): the size check *)


(** ** C4 (as amended): failures inside [handleMessage] *)

(** Whatever the [try] block throws can be reported, when the socket
    does not throw and the handlers throw reportable values. *)
Lemma dispatch_throws d c raw st e s' :
  never_throws (sendFn c) ->
  (forall ty h conn m s e0 s0,
     WS.find_handler ty d = Some h ->
     h conn m s = (Threw e0, s0) -> WS.reportable e0 = true) ->
  dispatch d c raw st = (Threw e, s') -> WS.reportable e = true.
Proof.
  intros Hok Hhandlers.
  destruct (JSON_parse raw) as [v|m] eqn:Hparse;
    [|erewrite dispatch_unparsed by exact Hparse;
      intros [= <- _]; reflexivity].
  destruct (WS.type_of v) as [ty|e0] eqn:Hty.
  - destruct (truthy ty) eqn:Htruthy;
      [|erewrite dispatch_untyped by eassumption;
        intros [= <- _]; reflexivity].
    erewrite dispatch_typed by eassumption.
    destruct (Z.of_nat (utf16_length raw) >? WS.maxMessageSize d)%Z;
      [intros [= <- _]; reflexivity|].
    destruct (WS.find_handler ty d) as [h|] eqn:Hh.
    + intros Hrun. exact (Hhandlers ty h c v st e s' Hh Hrun).
    + destruct (ToString ty) as [text|e1] eqn:Htext.
      * intros Hrun.
        pose proof (wsend_returns c
                      (WS.error_frame
                         (JsString ("No handler found for message type: "
                                      ++ text)%string)) st Hok) as Hr.
        rewrite Hrun in Hr. discriminate.
      * intros [= <- _]. now rewrite (ToString_throws _ Htext).
  - unfold WS.dispatch, bind, WS.lift_outcome, WS.parse.
    rewrite Hparse, Hty. intros [= <- _].
    destruct v; simpl in Hty; try discriminate Hty;
      injection Hty as <-; reflexivity.
Qed.

(** C4.  For every registered connection whose [sendFn] does not throw,
    every rawFrame (unparseable ones included) and every set of
    handlers that throw or reject with reportable values only, that is
    with values whose [message] can be read and serialized (an [Error]
    is one; [null], [undefined] and a value whose [message] is a
    throwing getter, a BigInt or a cycle are not): [handleMessage]
    returns normally (its promise is fulfilled); and every failure of
    the parse, of the validation or of the handler is turned into the
    error frame [{type:"error", payload:{error:<message>}}], sent on the
    originating connection in the state the failure left. *)
Theorem C4_failures_become_error_frames :
  forall d cid c raw st,
    getConnection (fst st) cid = Some c ->
    never_throws (sendFn c) ->
    (forall ty h conn m s e s',
       WS.find_handler ty d = Some h ->
       h conn m s = (Threw e, s') -> WS.reportable e = true) ->
    returned (fst (handleMessage d cid raw st)) = true /\
    forall e s',
      dispatch d c raw st = (Threw e, s') ->
      exists m,
        WS.message_of e = Returned m /\
        handleMessage d cid raw st = wsend c (WS.error_frame m) s'.
Proof.
  intros d cid c raw st Hc Hok Hhandlers.
  erewrite handleMessage_registered by exact Hc. unfold try_catch.
  destruct (dispatch d c raw st) as [[u|e] s'] eqn:Hrun.
  - split; [reflexivity | intros e0 s0 [=]].
  - pose proof (@dispatch_throws d c raw st e s' Hok Hhandlers Hrun)
      as He.
    unfold WS.reportable in He.
    destruct (WS.message_of e) as [m|e'] eqn:Hm; [|discriminate He].
    assert (Hreport : report c e s' = wsend c (WS.error_frame m) s').
    { unfold WS.report, bind, WS.lift_outcome. now rewrite Hm. }
    rewrite Hreport. split.
    + now apply wsend_returns.
    + intros e0 s0 [= <- <-]. exists m. now split.
Qed.
End Dispatch.



(** C4, witness: a handler that throws an [Error] on a healthy socket;
    the promise is fulfilled and the client gets the error frame. *)
Lemma C4_witness :
  never_throws (Sim.socket_send "c1") /\
  (forall ty h conn m s e s',
     WS.find_handler ty (Sim.chat_only Sim.defaults) = Some h ->
     h conn m s = (Threw e, s') -> WS.reportable e = true) /\
  WS.handleMessage Sim.Date_now Sim.JSON_parse Sim.JSON_stringify
    (Sim.chat_only Sim.defaults) "c1" Sim.chat_text Sim.one_client
  = (Returned tt,
     Sim.sent_on "c1" (WS.error_frame (JsString "boom")) Sim.one_client).
Proof.
  assert (Hok : never_throws (Sim.socket_send "c1"))
    by (intros a w; reflexivity).
  assert (Hhandlers : forall ty h conn m s e s',
            WS.find_handler ty (Sim.chat_only Sim.defaults) = Some h ->
            h conn m s = (Threw e, s') -> WS.reportable e = true).
  { intros ty h conn m s e s' Hh. destruct ty; try discriminate Hh.
    unfold WS.find_handler in Hh. simpl in Hh.
    destruct (String.eqb s0 "chat:send"); [|discriminate Hh].
    injection Hh as <-. intros [= <- _]. reflexivity. }
  split; [exact Hok|]. split; [exact Hhandlers|].
  destruct (@C4_failures_become_error_frames Sim.World Sim.Date_now
              Sim.JSON_parse Sim.JSON_stringify
              (Sim.chat_only Sim.defaults) "c1"
              (Sim.connection "c1" (Some "u1") None)
              Sim.chat_text Sim.one_client
              eq_refl Hok Hhandlers) as [_ Hframe].
  destruct (Hframe (ThrownError Error "boom") Sim.one_client eq_refl)
    as (m & Hm & Hrun).
  injection Hm as <-. exact Hrun.
Defined.

(** C4 as stated fails: when the socket of the originating connection
    throws, the write error leaves [handleMessage] (the promise is
    rejected); a handler that rejects with [null] or with [undefined]
    makes the [catch] block itself throw; and so does a handler that
    throws a value whose [message] is a BigInt, which [JSON.stringify]
    refuses. *)
Lemma C4_counterexample :
  Sim.handle Sim.defaults "c1" "not json" Sim.dead_client
  = (Threw (ThrownError Error "write EPIPE"), Sim.dead_client) /\
  Sim.handle Sim.defaults "c1" (Sim.JSON_stringify Sim.drop_frame)
    Sim.one_client
  = (Threw (ThrownError TypeError
              "Cannot read properties of null (reading 'message')"),
     Sim.one_client) /\
  WS.handleMessage Sim.Date_now Sim.JSON_parse Sim.JSON_stringify
    (WS.onMessage "chat:send" Sim.undefined_handler
       (Sim.dispatcher_of Sim.defaults))
    "c1" Sim.chat_text Sim.one_client
  = (Threw (ThrownError TypeError
              "Cannot read properties of undefined (reading 'message')"),
     Sim.one_client) /\
  WS.handleMessage Sim.Date_now Sim.JSON_parse Sim.JSON_stringify
    (WS.onMessage "chat:send" Sim.unserializable_handler
       (Sim.dispatcher_of Sim.defaults))
    "c1" Sim.chat_text Sim.one_client
  = (Threw (ThrownError TypeError "Do not know how to serialize a BigInt"),
     Sim.one_client).
Proof.
  repeat split; reflexivity.
Qed.

(** * Further properties of the two managers *)

(** ** More laws of the maps *)

Module JsMapMore.
Section Facts.
Context {V : Type}.
Implicit Types (m : JsMap.t V) (k : string) (v : V).

Lemma get_None_keys k m : JsMap.get k m = None <-> ~ In k (JsMap.keys m).
Proof.
  induction m as [|[k0 v0] m IH]; simpl.
  - split; [intros _ [] | reflexivity].
  - destruct (String.eqb_spec k k0) as [->|Hk].
    + split; [discriminate | intros H; exfalso; apply H; now left].
    + rewrite IH. split.
      * intros H [Heq|Hin]; [congruence | contradiction].
      * intros H Hin. apply H. now right.
Qed.

Lemma get_Some_In k v m : JsMap.get k m = Some v -> In (k, v) m.
Proof.
  induction m as [|[k0 v0] m IH]; simpl; [discriminate|].
  destruct (String.eqb_spec k k0) as [->|Hk].
  - intros [= ->]. now left.
  - intros H. right. now apply IH.
Qed.

Lemma In_get k v m : NoDup (JsMap.keys m) -> In (k, v) m -> JsMap.get k m = Some v.
Proof.
  induction m as [|[k0 v0] m IH]; simpl; [intros _ []|].
  intros Hnd [Heq|Hin].
  - injection Heq as -> ->. now rewrite String.eqb_refl.
  - inversion Hnd as [|? ? Hnotin Hnd']; subst.
    destruct (String.eqb_spec k k0) as [->|Hk]; [|now apply IH].
    exfalso. apply Hnotin. change (In (fst (k0, v)) (map fst m)).
    now apply in_map.
Qed.

Lemma delete_absent k m : JsMap.get k m = None -> JsMap.delete k m = m.
Proof.
  unfold JsMap.delete. induction m as [|[k0 v0] m IH]; simpl; [reflexivity|].
  destruct (String.eqb_spec k k0) as [->|Hk]; [discriminate|].
  intros H. simpl. now rewrite IH.
Qed.

Lemma delete_app k m m2 :
  JsMap.delete k (m ++ m2) = JsMap.delete k m ++ JsMap.delete k m2.
Proof.
  unfold JsMap.delete. apply filter_app.
Qed.

Lemma set_absent k v m : JsMap.get k m = None -> JsMap.set k v m = m ++ [(k, v)].
Proof.
  intros H. unfold JsMap.set, JsMap.has. now rewrite H.
Qed.

Lemma set_present k v v0 m :
  JsMap.get k m = Some v0 -> JsMap.set k v m = JsMap.replace k v m.
Proof.
  intros H. unfold JsMap.set, JsMap.has. now rewrite H.
Qed.

Lemma replace_app_absent k v m m2 :
  JsMap.get k m = None ->
  JsMap.replace k v (m ++ m2) = m ++ JsMap.replace k v m2.
Proof.
  induction m as [|[k0 v0] m IH]; simpl; [reflexivity|].
  destruct (String.eqb_spec k k0) as [->|Hk]; [discriminate|].
  intros H. now rewrite IH.
Qed.

Lemma replace_replace k v v0 m :
  JsMap.get k m = Some v0 ->
  JsMap.replace k v0 (JsMap.replace k v m) = m.
Proof.
  induction m as [|[k0 v1] m IH]; simpl; [discriminate|].
  destruct (String.eqb_spec k k0) as [->|Hk]; simpl.
  - intros [= ->]. now rewrite String.eqb_refl.
  - intros H. destruct (String.eqb_spec k k0); [contradiction|].
    now rewrite IH.
Qed.

Lemma keys_set k v m :
  JsMap.keys (JsMap.set k v m) =
  if JsMap.has k m then JsMap.keys m else JsMap.keys m ++ [k].
Proof.
  unfold JsMap.set. destruct (JsMap.has k m).
  - apply keys_replace.
  - unfold JsMap.keys. now rewrite map_app.
Qed.

Lemma keys_delete k m :
  JsMap.keys (JsMap.delete k m)
  = filter (fun k' => negb (k =? k')) (JsMap.keys m).
Proof.
  unfold JsMap.delete, JsMap.keys.
  induction m as [|[k0 v0] m IH]; simpl; [reflexivity|].
  destruct (k =? k0); simpl; now rewrite IH.
Qed.

Lemma size_set k v m :
  JsMap.size (JsMap.set k v m) =
  if JsMap.has k m then JsMap.size m else S (JsMap.size m).
Proof.
  unfold JsMap.size.
  rewrite <- (length_map fst (JsMap.set k v m)), <- (length_map fst m).
  change (map fst (JsMap.set k v m)) with (JsMap.keys (JsMap.set k v m)).
  rewrite keys_set. destruct (JsMap.has k m); [reflexivity|].
  unfold JsMap.keys. rewrite length_app. simpl. lia.
Qed.
End Facts.
End JsMapMore.

Lemma set_delete_fresh cid (s : JsSet.t) :
  ~ In cid s -> JsSet.delete cid s = s.
Proof.
  unfold JsSet.delete. induction s as [|x s IH]; simpl; [reflexivity|].
  intros Hnot. destruct (String.eqb_spec cid x) as [->|Hx]; simpl.
  - exfalso. apply Hnot. now left.
  - rewrite IH; [reflexivity|]. intros Hin. apply Hnot. now right.
Qed.

Lemma set_delete_add cid (s : JsSet.t) :
  ~ In cid s -> JsSet.delete cid (JsSet.add cid s) = s.
Proof.
  intros Hnot. unfold JsSet.add.
  destruct (JsSet.has cid s) eqn:Hhas.
  - apply JsSetFacts.has_In in Hhas. contradiction.
  - unfold JsSet.delete. rewrite filter_app. simpl.
    rewrite String.eqb_refl. simpl. rewrite app_nil_r.
    now apply set_delete_fresh.
Qed.

Lemma track_absent k cid (m : JsMap.t JsSet.t) :
  JsMap.get k m = None -> track k cid m = m ++ [(k, [cid])].
Proof.
  intros Hget. unfold track, JsMap.has. rewrite Hget.
  rewrite JsMapMore.set_absent by exact Hget.
  assert (Hnew : JsMap.get k (m ++ [(k, JsSet.empty)]) = Some JsSet.empty).
  { rewrite JsMapFacts.get_app, Hget. simpl. now rewrite String.eqb_refl. }
  rewrite Hnew. erewrite JsMapMore.set_present by exact Hnew.
  rewrite JsMapMore.replace_app_absent by exact Hget.
  cbn [JsMap.replace]. rewrite String.eqb_refl. reflexivity.
Qed.

Lemma untrack_last k cid (m : JsMap.t JsSet.t) :
  JsMap.get k m = None -> untrack k cid (m ++ [(k, [cid])]) = m.
Proof.
  intros Hget. unfold untrack.
  assert (Hnew : JsMap.get k (m ++ [(k, [cid])]) = Some [cid]).
  { rewrite JsMapFacts.get_app, Hget. simpl. now rewrite String.eqb_refl. }
  rewrite Hnew. unfold JsSet.delete. cbn [filter]. rewrite String.eqb_refl.
  cbn [negb JsSet.size length Nat.eqb].
  rewrite JsMapMore.delete_app, JsMapMore.delete_absent by exact Hget.
  unfold JsMap.delete. cbn [filter fst]. rewrite String.eqb_refl.
  apply app_nil_r.
Qed.

(** Registering [cid] under [k] and dropping it again gives the index
    back, when [cid] was not in a (non-empty) set of [k] before. *)
Lemma untrack_track k cid (m : JsMap.t JsSet.t) :
  (forall s, JsMap.get k m = Some s -> s <> [] /\ ~ In cid s) ->
  untrack k cid (track k cid m) = m.
Proof.
  intros Hset. destruct (JsMap.get k m) as [s|] eqn:Hget.
  - destruct (Hset s eq_refl) as [Hne Hnot].
    unfold track, JsMap.has. rewrite Hget. cbv zeta. rewrite Hget.
    erewrite JsMapMore.set_present by exact Hget.
    unfold untrack.
    rewrite JsMapFacts.get_replace, String.eqb_refl, Hget.
    rewrite set_delete_add by exact Hnot.
    destruct s as [|x s]; [contradiction|]. cbn [JsSet.size length Nat.eqb].
    assert (Hrep : JsMap.get k (JsMap.replace k (JsSet.add cid (x :: s)) m)
                   = Some (JsSet.add cid (x :: s)))
      by now rewrite JsMapFacts.get_replace, String.eqb_refl, Hget.
    erewrite JsMapMore.set_present by exact Hrep.
    now apply JsMapMore.replace_replace.
  - rewrite track_absent by exact Hget. now apply untrack_last.
Qed.

(** ** Lookup, idempotence and the round trip of registration *)

Section RoundTrip.
Variable W : Type.
Variable Date_now : W -> Z.
Variable CloseArgs : Type.

Implicit Types (r : Registry W CloseArgs) (w : W).

Lemma connections_removeConnection r cid :
  connections (removeConnection cid r) = JsMap.delete cid (connections r).
Proof.
  unfold removeConnection.
  destruct (JsMap.get cid (connections r)) eqn:Hget; [reflexivity|].
  symmetry. now apply JsMapMore.delete_absent.
Qed.

(** X1.  [getConnection] after [addConnection] and [removeConnection]:
    a registration that is admitted makes [getConnection(id)] return the
    record it returned, leaves the lookup of every other id as it was,
    and raises [getConnectionCount] by one exactly when the id was not
    registered; a registration that is rejected changes nothing;
    [removeConnection(id)] makes [getConnection(id)] undefined and leaves
    the lookup of every other id as it was. *)
Theorem X1_lookup_after_add_and_remove :
  forall r w cid sf cf uid ch,
    match addConnection Date_now cid sf cf uid ch (r, w) with
    | (Returned c, st') =>
        snd st' = w /\
        (forall cid',
           getConnection (fst st') cid'
           = if cid' =? cid then Some c else getConnection r cid') /\
        getConnectionCount (fst st')
        = if JsMap.has cid (connections r)
          then getConnectionCount r else S (getConnectionCount r)
    | (Threw _, st') => st' = (r, w)
    end /\
    forall cid',
      getConnection (removeConnection cid r) cid'
      = if cid' =? cid then None else getConnection r cid'.
Proof.
  intros r w cid sf cf uid ch. split.
  - unfold addConnection. destruct (over_quota r uid); [reflexivity|].
    simpl. split; [reflexivity|]. split.
    + intros cid'. unfold getConnection. simpl.
      apply JsMapFacts.get_set.
    + unfold getConnectionCount. simpl. apply JsMapMore.size_set.
  - intros cid'. unfold getConnection.
    rewrite connections_removeConnection. apply JsMapFacts.get_delete.
Qed.

(** X2.  [removeConnection(id)] called any number of times (at least
    once) leaves the registry that one call leaves; and when [id] is not
    registered it returns the registry as it was. *)
Theorem X2_removeConnection_idempotent :
  forall r cid n,
    Nat.iter (S n) (removeConnection cid) r = removeConnection cid r /\
    if JsMap.has cid (connections r)
    then getConnection (removeConnection cid r) cid = None
    else removeConnection cid r = r.
Proof.
  intros r cid n. split.
  - induction n as [|n IH]; [reflexivity|].
    rewrite Nat.iter_succ, IH. apply removeConnection_idempotent.
  - destruct (JsMap.has cid (connections r)) eqn:Hhas.
    + apply removeConnection_absent.
    + apply JsMapFacts.has_false in Hhas. unfold removeConnection.
      now rewrite Hhas.
Qed.

(** X3.  In a registry whose indices hold ids of registered records only
    and no empty set, [addConnection] of an id that is not registered,
    followed by [removeConnection] of that id, gives back the registry as
    it was: the three maps, with their order. *)
Theorem X3_add_then_remove_restores :
  forall r w cid sf cf uid ch,
    sound_indices r ->
    no_empty_set (userConnections r) ->
    no_empty_set (channelConnections r) ->
    JsMap.has cid (connections r) = false ->
    over_quota r uid = None ->
    exists c r1,
      addConnection Date_now cid sf cf uid ch (r, w) = (Returned c, (r1, w))
      /\ removeConnection cid r1 = r.
Proof.
  intros r w cid sf cf uid ch [Hus Hcs] Hune Hcne Hfresh Hquota.
  apply JsMapFacts.has_false in Hfresh.
  unfold addConnection. rewrite Hquota.
  eexists; eexists. split; [reflexivity|].
  unfold removeConnection. simpl.
  rewrite JsMapFacts.get_set, String.eqb_refl. simpl.
  assert (Hback : forall key_of index,
            index_sound key_of (connections r) index ->
            no_empty_set index ->
            forall k, untrack k cid (track k cid index) = index).
  { intros key_of index Hsound Hne k. apply untrack_track.
    intros s Hs. split; [now apply (Hne k)|].
    intros Hin. destruct (Hsound k s cid Hs Hin) as [c [Hc _]]. congruence. }
  rewrite JsMapMore.set_absent by exact Hfresh.
  rewrite JsMapMore.delete_app, JsMapMore.delete_absent by exact Hfresh.
  unfold JsMap.delete at 1. simpl. rewrite String.eqb_refl. simpl.
  rewrite app_nil_r.
  destruct r as [mx conns users chans]. simpl in *. f_equal.
  - destruct (truthy_string uid); [now apply (Hback _ _ Hus Hune) | reflexivity].
  - destruct (truthy_string ch); [now apply (Hback _ _ Hcs Hcne) | reflexivity].
Qed.
End RoundTrip.

(** ** The shape of the registry along call sequences *)

Lemma NoDup_set_add x (s : JsSet.t) : NoDup s -> NoDup (JsSet.add x s).
Proof.
  intros Hs. unfold JsSet.add. destruct (JsSet.has x s) eqn:Hhas; [assumption|].
  apply NoDup_app; [assumption | repeat constructor; intros [] | ].
  intros y Hy [<-|[]]. apply JsSetFacts.has_In in Hy. congruence.
Qed.

Lemma NoDup_set_delete x (s : JsSet.t) : NoDup s -> NoDup (JsSet.delete x s).
Proof.
  intros Hs. unfold JsSet.delete. now apply NoDup_filter.
Qed.

Lemma track_sets_nodup k cid index :
  sets_nodup index -> sets_nodup (track k cid index).
Proof.
  intros Hold k' s. rewrite get_track.
  destruct (String.eqb_spec k' k) as [->|]; [|apply Hold].
  intros [= <-]. apply NoDup_set_add. unfold set_at.
  destruct (JsMap.get k index) as [s0|] eqn:Hs0; [now apply (Hold k) | constructor].
Qed.

Lemma untrack_sets_nodup k cid index :
  sets_nodup index -> sets_nodup (untrack k cid index).
Proof.
  intros Hold k' s. rewrite get_untrack.
  destruct (String.eqb_spec k' k) as [->|]; [|apply Hold].
  destruct (JsMap.get k index) as [s0|] eqn:Hs0; [|discriminate].
  intros Hs.
  assert (Heq : s = JsSet.delete cid s0)
    by (destruct (JsSet.delete cid s0); congruence).
  subst s. apply NoDup_set_delete. now apply (Hold k).
Qed.

Section Shapes.
Variable W : Type.
Variable Date_now : W -> Z.
Variable CloseArgs : Type.

Implicit Types (r : Registry W CloseArgs) (w : W)
  (conns : JsMap.t (Connection W CloseArgs)).

Lemma NoDup_keys_set k (c : Connection W CloseArgs) conns :
  NoDup (JsMap.keys conns) -> NoDup (JsMap.keys (JsMap.set k c conns)).
Proof.
  intros Hnd. rewrite JsMapMore.keys_set.
  destruct (JsMap.has k conns) eqn:Hhas; [assumption|].
  apply JsMapFacts.has_false, JsMapMore.get_None_keys in Hhas.
  apply NoDup_app; [assumption | repeat constructor; intros [] | ].
  intros y Hy [<-|[]]. contradiction.
Qed.

Lemma NoDup_keys_delete k conns :
  NoDup (JsMap.keys conns) -> NoDup (JsMap.keys (JsMap.delete k conns)).
Proof.
  intros Hnd. rewrite JsMapMore.keys_delete. now apply NoDup_filter.
Qed.

Lemma entries_by_id_set k (c : Connection W CloseArgs) conns :
  id c = k -> entries_by_id conns -> entries_by_id (JsMap.set k c conns).
Proof.
  intros Hid Hall. unfold JsMap.set, entries_by_id in *.
  destruct (JsMap.has k conns).
  - induction Hall as [|[k0 c0] m Hhead Htail IH]; simpl; [constructor|].
    destruct (String.eqb_spec k k0) as [->|]; constructor; assumption.
  - apply Forall_app. split; [assumption | now repeat constructor].
Qed.

Lemma entries_by_id_delete k conns :
  entries_by_id conns -> entries_by_id (JsMap.delete k conns).
Proof.
  unfold entries_by_id, JsMap.delete. intros Hall.
  apply Forall_forall. intros kv Hin. apply filter_In in Hin as [Hin _].
  revert kv Hin. now apply Forall_forall.
Qed.

Lemma add_well_formed r w cid sf cf uid ch :
  well_formed r ->
  well_formed (fst (snd (addConnection Date_now cid sf cf uid ch (r, w)))).
Proof.
  intros [Hkeys Hids Hus Hcs]. unfold addConnection.
  destruct (over_quota r uid); simpl; [now constructor|].
  constructor; simpl.
  - now apply NoDup_keys_set.
  - now apply entries_by_id_set.
  - destruct (truthy_string uid); [now apply track_sets_nodup | assumption].
  - destruct (truthy_string ch); [now apply track_sets_nodup | assumption].
Qed.

Lemma remove_well_formed r cid :
  well_formed r -> well_formed (removeConnection cid r).
Proof.
  intros [Hkeys Hids Hus Hcs]. unfold removeConnection.
  destruct (JsMap.get cid (connections r)) as [c|]; [|now constructor].
  constructor; simpl.
  - now apply NoDup_keys_delete.
  - now apply entries_by_id_delete.
  - destruct (truthy_string (userId c));
      [now apply untrack_sets_nodup | assumption].
  - destruct (truthy_string (channel c));
      [now apply untrack_sets_nodup | assumption].
Qed.

Lemma new_registry_well_formed maxPerUser :
  well_formed (new_registry W CloseArgs maxPerUser).
Proof.
  constructor; simpl; try constructor; intros k s; discriminate.
Qed.

Lemma run_well_formed (calls : list (Call W CloseArgs)) :
  forall st : State W CloseArgs,
    well_formed (fst st) -> well_formed (fst (run Date_now calls st)).
Proof.
  induction calls as [|c calls IH]; intros st Hwf; simpl; [assumption|].
  apply IH. destruct c as [cid sf cf uid ch | cid]; simpl.
  - destruct st as [r w]. now apply add_well_formed.
  - now apply remove_well_formed.
Qed.

Lemma well_formed_lookup r cid c :
  well_formed r -> getConnection r cid = Some c -> id c = cid.
Proof.
  intros [_ Hids _ _] Hget. apply JsMapMore.get_Some_In in Hget.
  unfold entries_by_id in Hids. rewrite Forall_forall in Hids.
  exact (Hids (cid, c) Hget).
Qed.

(** X4.  After any sequence of [addConnection] and [removeConnection]
    calls on a new manager, ids registered twice included: an id is a key
    of [connections] at most once, the record that [getConnection(id)]
    returns has [id] as its id, and no set of [userConnections] or
    [channelConnections] lists an id twice. *)
Theorem X4_registry_shape :
  forall (maxPerUser : Z) (w0 : W) (calls : list (Call W CloseArgs)),
    let r :=
      fst (run Date_now calls (new_registry W CloseArgs maxPerUser, w0)) in
    NoDup (JsMap.keys (connections r)) /\
    (forall cid c, getConnection r cid = Some c -> id c = cid) /\
    sets_nodup (userConnections r) /\
    sets_nodup (channelConnections r).
Proof.
  intros maxPerUser w0 calls r.
  assert (Hwf : well_formed r)
    by (apply run_well_formed, new_registry_well_formed).
  split; [apply Hwf|]. split; [|split; apply Hwf].
  intros cid c. now apply well_formed_lookup.
Qed.

(** *** The counters count the registered records *)

Lemma NoDup_keys_filter (f : string * Connection W CloseArgs -> bool) conns :
  NoDup (JsMap.keys conns) -> NoDup (map fst (filter f conns)).
Proof.
  unfold JsMap.keys. induction conns as [|kv m IH]; simpl; [constructor|].
  intros Hnd. inversion Hnd as [|? ? Hnot Hnd']; subst.
  destruct (f kv); simpl; [|now apply IH].
  constructor; [|now apply IH].
  intros Hin. apply Hnot. apply in_map_iff in Hin as [kv' [Heq Hin]].
  apply filter_In in Hin as [Hin _]. rewrite <- Heq. now apply in_map.
Qed.

Lemma set_size_counts key_of conns index k :
  NoDup (JsMap.keys conns) ->
  sets_nodup index ->
  records_indexed key_of conns index ->
  index_sound key_of conns index ->
  JsSet.size (set_at k index) = length (ids_with key_of k conns).
Proof.
  intros Hkeys Hsets Hindexed Hsound. unfold JsSet.size.
  assert (Hnd1 : NoDup (set_at k index)).
  { unfold set_at. destruct (JsMap.get k index) as [s|] eqn:Hs;
      [now apply (Hsets k) | constructor]. }
  assert (Hnd2 : NoDup (ids_with key_of k conns))
    by now apply NoDup_keys_filter.
  apply Nat.le_antisymm; apply NoDup_incl_length; try assumption.
  - intros x Hx. unfold set_at in Hx.
    destruct (JsMap.get k index) as [s|] eqn:Hs; [|destruct Hx].
    destruct (Hsound k s x Hs Hx) as [c [Hc Hk]].
    unfold ids_with. apply in_map_iff. exists (x, c). split; [reflexivity|].
    apply filter_In. split; [now apply JsMapMore.get_Some_In|].
    simpl. rewrite Hk. apply String.eqb_refl.
  - intros x Hx. unfold ids_with in Hx.
    apply in_map_iff in Hx as [[x' c] [Heq Hin]]. simpl in Heq. subst x'.
    apply filter_In in Hin as [Hin Hk]. simpl in Hk.
    destruct (truthy_string (key_of c)) as [k'|] eqn:Hk'; [|discriminate].
    apply String.eqb_eq in Hk. subst k'.
    apply JsMapMore.In_get in Hin; [|assumption].
    destruct (Hindexed x c k Hin Hk') as [s [Hs Hxs]].
    unfold set_at. now rewrite Hs.
Qed.

(** X5.  After a sequence of calls that registers fresh ids only,
    [getUserConnectionCount(u)] is the number of registered connections
    whose userId is [u], and [getChannelConnectionCount(c)] the number of
    registered connections whose channel is [c]. *)
Theorem X5_counters_count_records :
  forall (maxPerUser : Z) (w0 : W) (calls : list (Call W CloseArgs)) k,
    fresh_ids Date_now calls (new_registry W CloseArgs maxPerUser, w0)
    = true ->
    let r :=
      fst (run Date_now calls (new_registry W CloseArgs maxPerUser, w0)) in
    getUserConnectionCount r k
    = length (ids_with (@userId W CloseArgs) k (connections r)) /\
    getChannelConnectionCount r k
    = length (ids_with (@channel W CloseArgs) k (connections r)).
Proof.
  intros maxPerUser w0 calls k Hfresh r.
  assert (Hwf : well_formed r)
    by (apply run_well_formed, new_registry_well_formed).
  destruct (new_registry_invariants W CloseArgs maxPerUser)
    as [Hloose0 Hsound0].
  assert (Hloose : loose_invariants r) by now apply run_loose.
  assert (Hsound : sound_indices r) by now apply run_sound.
  destruct Hwf as [Hkeys _ Hus Hcs].
  destruct Hloose as [Hui Hci _ _ _]. destruct Hsound as [Hsu Hsc].
  split.
  - rewrite count_set_at. now apply set_size_counts.
  - transitivity (JsSet.size (set_at k (channelConnections r))).
    + unfold getChannelConnectionCount, set_at.
      destruct (JsMap.get k (channelConnections r)); reflexivity.
    + now apply set_size_counts.
Qed.
End Shapes.

(** ** Publishers against the counters, and after a removal *)

Section PublishCounts.
Variable W : Type.
Variable CloseArgs : Type.
Variable Msg : Type.
Variable sendFrame : SendFn W -> Msg -> M W unit.
Hypothesis encoder : hands_to_sendFn sendFrame.

Implicit Types (r : Registry W CloseArgs) (w : W) (ids : list string).

Lemma registered_length ids r :
  (forall x, In x ids -> exists c, getConnection r x = Some c) ->
  length (registered ids r) = length ids.
Proof.
  unfold registered, getConnection.
  induction ids as [|i ids IH]; intros Hall; simpl; [reflexivity|].
  destruct (Hall i (or_introl eq_refl)) as [c Hc]. rewrite Hc. simpl.
  f_equal. apply IH. intros x Hx. apply Hall. now right.
Qed.

Lemma registered_values ids r c :
  In c (registered ids r) -> In c (JsMap.values (connections r)).
Proof.
  unfold registered. intros Hin. apply in_flat_map in Hin as [i [_ Hc]].
  destruct (JsMap.get i (connections r)) as [c'|] eqn:Hget; [|destruct Hc].
  destruct Hc as [<-|[]]. apply JsMapMore.get_Some_In in Hget.
  unfold JsMap.values. change c' with (snd (i, c')). now apply in_map.
Qed.

Lemma send_each_count ids r w message :
  (forall x, In x ids -> exists c, getConnection r x = Some c) ->
  (forall c, In c (JsMap.values (connections r)) -> never_throws (sendFn c)) ->
  fst (send_each sendFrame ids message 0 (r, w)) = Returned (length ids).
Proof.
  intros Hreg Hok.
  destruct (send_each_aborting encoder message ids 0 r w)
    as (_ & _ & Hall & _).
  rewrite Hall.
  - rewrite registered_length by exact Hreg. reflexivity.
  - intros c Hc. apply Hok. now apply registered_values with ids.
Qed.

(** X6.  In a registry whose indices hold ids of registered records only,
    and with sockets that do not throw, [sendToUser(u, m)] returns
    [getUserConnectionCount(u)], [sendToChannel(c, m)] returns
    [getChannelConnectionCount(c)] and [broadcast(m)] returns
    [getConnectionCount()]. *)
Theorem X6_publish_counts_match_counters :
  forall r w message k,
    sound_indices r ->
    (forall c, In c (JsMap.values (connections r)) ->
               never_throws (sendFn c)) ->
    fst (sendToUser sendFrame k message (r, w))
    = Returned (getUserConnectionCount r k) /\
    fst (sendToChannel sendFrame k message (r, w))
    = Returned (getChannelConnectionCount r k) /\
    fst (broadcast sendFrame message (r, w))
    = Returned (getConnectionCount r).
Proof.
  intros r w message k [Hus Hcs] Hok.
  assert (Hreg : forall key_of index ids,
            index_sound key_of (connections r) index ->
            JsMap.get k index = Some ids ->
            forall x, In x ids -> exists c, getConnection r x = Some c).
  { intros key_of index ids Hsound Hids x Hx.
    destruct (Hsound k ids x Hids Hx) as [c [Hc _]]. now exists c. }
  split; [|split].
  - unfold sendToUser, getUserConnectionCount. simpl.
    destruct (JsMap.get k (userConnections r)) as [ids|] eqn:Hids;
      [|reflexivity].
    apply send_each_count; [|assumption]. now apply (Hreg _ _ _ Hus Hids).
  - unfold sendToChannel, getChannelConnectionCount. simpl.
    destruct (JsMap.get k (channelConnections r)) as [ids|] eqn:Hids;
      [|reflexivity].
    apply send_each_count; [|assumption]. now apply (Hreg _ _ _ Hcs Hids).
  - unfold broadcast, getConnectionCount, JsMap.size. simpl.
    destruct (send_all_aborting encoder message
                (JsMap.values (connections r)) 0 r w) as (_ & _ & Hall & _).
    rewrite (Hall Hok). unfold JsMap.values. now rewrite length_map.
Qed.
End PublishCounts.

Section AfterRemoval.
Variable W : Type.
Variable CloseArgs : Type.
Variable Msg : Type.
Variable sendFrame : SendFn W -> Msg -> M W unit.

Implicit Types (r : Registry W CloseArgs) (w : W).

(** X7.  After [removeConnection(id)]: [sendToConnection(id, m)] returns
    false and calls no [sendFn]; and every record that [sendToUser],
    [sendToChannel] or [broadcast] send to is one that was registered
    under another id. *)
Theorem X7_removed_id_is_not_sent_to :
  forall r w cid message t,
    sendToConnection sendFrame cid message (removeConnection cid r, w)
    = (Returned false, (removeConnection cid r, w)) /\
    forall c, In c (targets t (removeConnection cid r)) ->
              exists k, k <> cid /\ In (k, c) (connections r).
Proof.
  intros r w cid message t. split.
  - unfold sendToConnection. simpl.
    pose proof (removeConnection_absent r cid) as Habs.
    unfold getConnection in Habs. now rewrite Habs.
  - assert (Hreg : forall ids c,
              In c (registered ids (removeConnection cid r)) ->
              exists k, k <> cid /\ In (k, c) (connections r)).
    { intros ids c Hin. unfold registered in Hin.
      apply in_flat_map in Hin as [i [_ Hc]].
      rewrite connections_removeConnection, JsMapFacts.get_delete in Hc.
      destruct (String.eqb_spec i cid) as [Heq|Hneq]; [destruct Hc|].
      destruct (JsMap.get i (connections r)) as [c'|] eqn:Hget;
        [|destruct Hc].
      destruct Hc as [<-|[]]. exists i. split; [assumption|].
      now apply JsMapMore.get_Some_In. }
    intros c Hin. destruct t as [u | ch |]; simpl in Hin.
    + now apply Hreg in Hin.
    + now apply Hreg in Hin.
    + rewrite connections_removeConnection in Hin.
      unfold JsMap.values, JsMap.delete in Hin.
      apply in_map_iff in Hin as [[k c'] [Heq Hin]]. simpl in Heq. subst c'.
      apply filter_In in Hin as [Hin Hk]. simpl in Hk.
      exists k. split; [|assumption].
      intros ->. rewrite String.eqb_refl in Hk. discriminate.
Qed.
End AfterRemoval.

(** ** [closeAll] *)


Section CloseAll.
Variable W : Type.
Variable Date_now : W -> Z.
Variable CloseArgs : Type.

Implicit Types (r : Registry W CloseArgs) (w : W)
  (cs : list (Connection W CloseArgs)).

Lemma registry_ext r1 r2 :
  maxConnectionsPerUser r1 = maxConnectionsPerUser r2 ->
  connections r1 = connections r2 ->
  userConnections r1 = userConnections r2 ->
  channelConnections r1 = channelConnections r2 ->
  r1 = r2.
Proof.
  destruct r1, r2. simpl. now intros -> -> -> ->.
Qed.

Lemma close_each_returns args cs :
  (forall c, In c cs -> never_throws (closeFn c)) ->
  forall r w,
    close_each cs args (r, w)
    = (Returned tt, (removed_all cs r, closed_all args cs w)).
Proof.
  induction cs as [|c cs IH]; intros Hok r w; [reflexivity|].
  simpl. unfold bind. rewrite close_run.
  pose proof (Hok c (or_introl eq_refl) args w) as Hc.
  unfold removed_all, closed_all. simpl.
  destruct (closeFn c args w) as [[u|e] w']; [|discriminate]. simpl.
  apply IH. intros c' Hc'. apply Hok. now right.
Qed.


Lemma removed_all_max cs :
  forall r, maxConnectionsPerUser (removed_all cs r) = maxConnectionsPerUser r.
Proof.
  unfold removed_all.
  induction cs as [|c cs IH]; intros r; simpl; [reflexivity|].
  rewrite IH. unfold removeConnection.
  destruct (JsMap.get (id c) (connections r)); reflexivity.
Qed.

Lemma removed_all_lookup cs :
  forall r k,
    getConnection (removed_all cs r) k
    = if existsb (String.eqb k) (map (@id W CloseArgs) cs)
      then None else getConnection r k.
Proof.
  unfold removed_all.
  induction cs as [|c cs IH]; intros r k; simpl; [reflexivity|].
  rewrite IH. unfold getConnection.
  rewrite connections_removeConnection, JsMapFacts.get_delete.
  destruct (String.eqb_spec k (id c)); simpl;
    destruct (existsb (String.eqb k) (map (@id W CloseArgs) cs)); reflexivity.
Qed.

Lemma removed_all_invariants cs :
  forall r, registry_invariants r -> registry_invariants (removed_all cs r).
Proof.
  unfold removed_all.
  induction cs as [|c cs IH]; intros r Hinv; simpl; [assumption|].
  apply IH. destruct Hinv as [Hloose Hsound].
  split; [now apply remove_loose | now apply remove_sound].
Qed.

(** A registry with no connection and sound indices has empty indices. *)
Lemma empty_index key_of (index : JsMap.t JsSet.t) :
  index_sound key_of (@JsMap.empty (Connection W CloseArgs)) index ->
  no_empty_set index ->
  index = [].
Proof.
  intros Hsound Hne. destruct index as [|[k s] rest]; [reflexivity|].
  assert (Hget : JsMap.get k ((k, s) :: rest) = Some s)
    by (simpl; now rewrite String.eqb_refl).
  pose proof (Hne k s Hget) as Hs. destruct s as [|x s]; [contradiction|].
  destruct (Hsound k (x :: s) x Hget (or_introl eq_refl)) as [c [Hc _]].
  discriminate.
Qed.

Lemma keys_of_entries (conns : JsMap.t (Connection W CloseArgs)) :
  entries_by_id conns ->
  JsMap.keys conns = map (@id W CloseArgs) (JsMap.values conns).
Proof.
  unfold entries_by_id, JsMap.keys, JsMap.values. intros Hall.
  rewrite map_map. apply map_ext_Forall.
  revert Hall. apply Forall_impl. intros kv Hkv. now symmetry.
Qed.

Lemma removed_all_values_empty r :
  entries_by_id (connections r) ->
  connections (removed_all (JsMap.values (connections r)) r) = [].
Proof.
  intros Hids.
  destruct (connections (removed_all (JsMap.values (connections r)) r))
    as [|[k c] rest] eqn:Hconns; [reflexivity|].
  assert (Hget : getConnection
                   (removed_all (JsMap.values (connections r)) r) k = Some c).
  { unfold getConnection. rewrite Hconns. simpl. now rewrite String.eqb_refl. }
  rewrite removed_all_lookup in Hget.
  destruct (existsb (String.eqb k)
              (map (@id W CloseArgs) (JsMap.values (connections r))))
    eqn:Hex; [discriminate|].
  apply JsMapMore.get_Some_In in Hget.
  assert (Hin : In k (JsMap.keys (connections r))).
  { unfold JsMap.keys. change k with (fst (k, c)). now apply in_map. }
  rewrite (keys_of_entries Hids) in Hin.
  assert (Htrue : existsb (String.eqb k)
                    (map (@id W CloseArgs) (JsMap.values (connections r)))
                  = true).
  { apply existsb_exists. exists k. split; [assumption|].
    apply String.eqb_refl. }
  congruence.
Qed.

Lemma run_max (calls : list (Call W CloseArgs)) :
  forall st : State W CloseArgs,
    maxConnectionsPerUser (fst (run Date_now calls st))
    = maxConnectionsPerUser (fst st).
Proof.
  induction calls as [|c calls IH]; intros st; simpl; [reflexivity|].
  rewrite IH. destruct c as [cid sf cf uid ch | cid]; simpl.
  - destruct st as [r w]. unfold addConnection.
    destruct (over_quota r uid); reflexivity.
  - unfold removeConnection.
    destruct (JsMap.get cid (connections (fst st))); reflexivity.
Qed.

(** X8.  After a sequence of calls that registers fresh ids only, and
    with [closeFn]s that return normally, [closeAll(args)] calls the
    [closeFn] of every registered connection once, in the order of
    registration, and leaves the registry of a new manager: no
    connection, no user entry, no channel entry. *)
Theorem X8_closeAll_empties_the_registry :
  forall (maxPerUser : Z) (w0 : W) (calls : list (Call W CloseArgs)) args,
    fresh_ids Date_now calls (new_registry W CloseArgs maxPerUser, w0)
    = true ->
    let st := run Date_now calls (new_registry W CloseArgs maxPerUser, w0) in
    (forall c, In c (JsMap.values (connections (fst st))) ->
               never_throws (closeFn c)) ->
    closeAll args st
    = (Returned tt,
       (new_registry W CloseArgs maxPerUser,
        closed_all args (JsMap.values (connections (fst st))) (snd st))).
Proof.
  intros maxPerUser w0 calls args Hfresh st Hok.
  assert (Hwf : well_formed (fst st))
    by (apply run_well_formed, new_registry_well_formed).
  destruct (new_registry_invariants W CloseArgs maxPerUser)
    as [Hloose0 Hsound0].
  assert (Hinv : registry_invariants (fst st))
    by (split; [now apply run_loose | now apply run_sound]).
  unfold closeAll. destruct st as [r w] eqn:Hst. simpl in *.
  rewrite close_each_returns by exact Hok. do 2 f_equal.
  set (cs := JsMap.values (connections r)).
  pose proof (removed_all_invariants cs Hinv) as [Hloose Hsound].
  pose proof (removed_all_values_empty r (wf_ids Hwf)) as Hempty.
  fold cs in Hempty.
  destruct Hloose as [_ _ Hune Hcne _]. destruct Hsound as [Hus Hcs].
  rewrite Hempty in Hus, Hcs.
  apply registry_ext; simpl.
  - rewrite removed_all_max.
    change r with (fst (r, w)). rewrite <- Hst. unfold st.
    apply run_max.
  - exact Hempty.
  - now apply (empty_index Hus).
  - now apply (empty_index Hcs).
Qed.

End CloseAll.

(** ** More on the inbound dispatcher *)

Section DispatchMore.
Variable W : Type.
Variable Date_now : W -> Z.
Variable JSON_parse : string -> Parsed.
Variable JSON_stringify : JsValue -> string.

Notation wsend := (WS.wsend Date_now JSON_stringify).
Notation dispatch := (WS.dispatch Date_now JSON_parse JSON_stringify).
Notation report := (WS.report Date_now JSON_stringify).
Notation handleMessage :=
  (WS.handleMessage Date_now JSON_parse JSON_stringify).

Implicit Types (d : WS.Dispatcher W) (c : WS.WsConnection W)
  (st : WS.WsState W).

Lemma find_handler_onMessage d t h t' :
  WS.find_handler (JsString t') (WS.onMessage t h d)
  = if t' =? t then Some h else WS.find_handler (JsString t') d.
Proof.
  unfold WS.find_handler, WS.onMessage. simpl. apply JsMapFacts.get_set.
Qed.

Lemma truthy_type t : t <> "" -> truthy (JsString t) = true.
Proof.
  intros Ht. simpl. destruct (String.eqb_spec t ""); [contradiction|].
  reflexivity.
Qed.

(** X10.  For a frame that parses to a message of type [t] and whose
    [length] (in UTF-16 code units) is not above [maxMessageSize]: after
    [onMessage(t, h)], [handleMessage] runs [h] on the connection and
    the parsed message, whatever handlers were registered before (one
    for [t] included); and a later [onMessage] for another type leaves
    that so. *)
Theorem X10_onMessage_last_handler_runs :
  forall d t h cid c raw st v,
    getConnection (fst st) cid = Some c ->
    JSON_parse raw = ParseOk v ->
    WS.type_of v = Returned (JsString t) ->
    t <> "" ->
    (Z.of_nat (utf16_length raw) <= WS.maxMessageSize d)%Z ->
    handleMessage (WS.onMessage t h d) cid raw st
    = try_catch (h c v) (report c) st /\
    forall t' h',
      t' <> t ->
      handleMessage (WS.onMessage t' h' (WS.onMessage t h d)) cid raw st
      = try_catch (h c v) (report c) st.
Proof.
  intros d t h cid c raw st v Hc Hparse Hty Ht Hfits.
  pose proof (truthy_type Ht) as Htruthy.
  assert (Hrun : forall d',
            WS.maxMessageSize d' = WS.maxMessageSize d ->
            WS.find_handler (JsString t) d' = Some h ->
            handleMessage d' cid raw st = try_catch (h c v) (report c) st).
  { intros d' Hsize Hh.
    erewrite handleMessage_registered by exact Hc.
    unfold try_catch. erewrite dispatch_typed by eassumption.
    rewrite Hsize.
    destruct (Z.gtb_spec (Z.of_nat (utf16_length raw))
                (WS.maxMessageSize d)); [lia|].
    rewrite Hh. reflexivity. }
  split.
  - apply Hrun; [reflexivity|].
    now rewrite find_handler_onMessage, String.eqb_refl.
  - intros t' h' Hneq. apply Hrun; [reflexivity|].
    rewrite !find_handler_onMessage, String.eqb_refl.
    destruct (String.eqb_spec t t'); [congruence | reflexivity].
Qed.

(** X11.  What [handleMessage] answers, on a registered connection, to a
    frame that reaches no handler, whatever handlers are registered: a
    frame that does not parse gets the parser's message; a frame on
    which reading [type] throws (JSON [null]) gets the message of that
    error; a frame whose [type] is missing or falsy gets [Message type is
    required], whatever its length; and a frame that fits whose [type]
    is truthy but not a string gets [No handler found for message type:]
    followed by the type as the template literal prints it (numbers
    being safe integers), unless the template literal throws, the type
    being or holding an object with a property [toString]: that frame
    gets [Cannot convert object to primitive value]. *)
Theorem X11_frames_that_reach_no_handler :
  forall d cid c raw st,
    getConnection (fst st) cid = Some c ->
    (forall m,
       JSON_parse raw = ParseFail m ->
       handleMessage d cid raw st
       = wsend c (WS.error_frame (JsString m)) st) /\
    (forall v ctor m,
       JSON_parse raw = ParseOk v ->
       WS.type_of v = Threw (ThrownError ctor m) ->
       handleMessage d cid raw st
       = wsend c (WS.error_frame (JsString m)) st) /\
    (forall v ty,
       JSON_parse raw = ParseOk v ->
       WS.type_of v = Returned ty ->
       truthy ty = false ->
       handleMessage d cid raw st
       = wsend c (WS.error_frame (JsString "Message type is required")) st)
    /\
    (forall v ty,
       JSON_parse raw = ParseOk v ->
       WS.type_of v = Returned ty ->
       truthy ty = true ->
       (forall s, ty <> JsString s) ->
       (Z.of_nat (utf16_length raw) <= WS.maxMessageSize d)%Z ->
       (forall text,
          safe_integers ty = true ->
          ToString ty = Returned text ->
          handleMessage d cid raw st
          = try_catch
              (wsend c
                 (WS.error_frame
                    (JsString ("No handler found for message type: "
                                 ++ text)%string)))
              (report c) st) /\
       (forall e,
          ToString ty = Threw e ->
          handleMessage d cid raw st
          = wsend c
              (WS.error_frame
                 (JsString "Cannot convert object to primitive value")) st)).
Proof.
  intros d cid c raw st Hc.
  erewrite handleMessage_registered by exact Hc.
  split; [|split; [|split]].
  - intros m Hparse.
    unfold try_catch, WS.dispatch, bind, WS.lift_outcome, WS.parse.
    rewrite Hparse. reflexivity.
  - intros v ctor m Hparse Hty.
    unfold try_catch, WS.dispatch, bind, WS.lift_outcome, WS.parse.
    rewrite Hparse, Hty. reflexivity.
  - intros v ty Hparse Hty Hfalsy.
    unfold try_catch, WS.dispatch, bind, WS.lift_outcome, WS.parse.
    rewrite Hparse, Hty, Hfalsy. reflexivity.
  - intros v ty Hparse Hty Htruthy Hnot Hfits.
    unfold try_catch. erewrite dispatch_typed by eassumption.
    destruct (Z.gtb_spec (Z.of_nat (utf16_length raw))
                (WS.maxMessageSize d)); [lia|].
    assert (Hnone : WS.find_handler ty d = None).
    { destruct ty; try reflexivity. exfalso. now apply (Hnot s). }
    rewrite Hnone. split.
    + intros text _ Htext. now rewrite Htext.
    + intros e Htext. rewrite Htext.
      now rewrite (ToString_throws _ Htext).
Qed.
End DispatchMore.

(** ** A quota of zero *)

Section ZeroQuota.
Variable W : Type.
Variable Date_now : W -> Z.
Variable CloseArgs : Type.

Implicit Types (r : Registry W CloseArgs) (w : W).

Lemma step_no_user_entries (c : Call W CloseArgs) (st : State W CloseArgs) :
  (maxConnectionsPerUser (fst st) <= 0)%Z ->
  userConnections (fst st) = [] ->
  userConnections (fst (step Date_now c st)) = [].
Proof.
  intros Hmax Hnone. destruct st as [r w].
  destruct c as [cid sf cf uid ch | cid]; simpl in *.
  - unfold addConnection, over_quota, getUserConnectionCount.
    rewrite Hnone. simpl.
    destruct (truthy_string uid) as [u|];
      [|first [assumption | reflexivity]].
    destruct (Z.geb_spec 0 (maxConnectionsPerUser r)); simpl;
      [first [assumption | reflexivity] | lia].
  - unfold removeConnection.
    destruct (JsMap.get cid (connections r)) as [c|]; [|assumption].
    simpl. rewrite Hnone.
    destruct (truthy_string (userId c)); reflexivity.
Qed.

Lemma run_no_user_entries (calls : list (Call W CloseArgs)) :
  forall st : State W CloseArgs,
    (maxConnectionsPerUser (fst st) <= 0)%Z ->
    userConnections (fst st) = [] ->
    userConnections (fst (run Date_now calls st)) = [].
Proof.
  induction calls as [|c calls IH]; intros st Hmax Hnone; simpl;
    [assumption|].
  apply IH.
  - assert (Hstep : maxConnectionsPerUser (fst (step Date_now c st))
                    = maxConnectionsPerUser (fst st))
      by exact (run_max Date_now [c] st).
    now rewrite Hstep.
  - now apply step_no_user_entries.
Qed.

End ZeroQuota.

Section ZeroQuotaManager.
Variable W : Type.
Variable Date_now : W -> Z.

(** X12.  A manager constructed with [maxConnectionsPerUser] zero or
    negative (the constructor keeps it: the default of 10 replaces a
    missing option only) never admits a connection with a non-empty
    userId: after any sequence of calls [userConnections] is empty, and
    every such [addConnection] throws the quota error and changes
    nothing.  Connections without userId are not affected. *)
Theorem X12_zero_quota_admits_no_user :
  forall (options : WebSocketManagerOptions.t) (z : Z) (w0 : W)
         (calls : list (Call W WS.CloseArgs)),
    WebSocketManagerOptions.maxConnectionsPerUser options = Some z ->
    (z <= 0)%Z ->
    let st := run Date_now calls (fst (WS.new_manager W options), w0) in
    userConnections (fst st) = [] /\
    (forall cid sf cf u ch,
       u <> "" ->
       addConnection Date_now cid sf cf (Some u) ch st
       = (Threw (quota_error (fst st) u), st)) /\
    (forall cid sf cf ch,
       returned (fst (addConnection Date_now cid sf cf None ch st)) = true).
Proof.
  intros options z w0 calls Hopt Hz st.
  assert (Hmax : maxConnectionsPerUser (fst st) = z).
  { unfold st. rewrite run_max. simpl. now rewrite Hopt. }
  assert (Hnone : userConnections (fst st) = []).
  { unfold st. apply run_no_user_entries; simpl;
      [now rewrite Hopt | reflexivity]. }
  split; [assumption|]. split.
  - intros cid sf cf u ch Hu. destruct st as [r w]. simpl in *.
    unfold addConnection. rewrite (over_quota_iff r Hu).
    unfold getUserConnectionCount. rewrite Hnone, Hmax. simpl.
    destruct (Z.geb_spec 0 z); [reflexivity | lia].
  - intros cid sf cf ch. destruct st as [r w]. reflexivity.
Qed.
End ZeroQuotaManager.

(** ** The further properties at concrete states *)

Lemma sim_run_sound (calls : list Sim.WsCall) maxPerUser :
  fresh_ids Sim.Date_now calls (Sim.fresh_manager maxPerUser) = true ->
  registry_invariants
    (fst (run Sim.Date_now calls (Sim.fresh_manager maxPerUser))).
Proof.
  intros Hfresh.
  destruct (new_registry_invariants Sim.World WS.CloseArgs maxPerUser)
    as [Hloose Hsound].
  split; [now apply run_loose | now apply run_sound].
Qed.

Lemma sim_sockets_never_throw (cids : list (string * option string
                                             * option string)) :
  forall c,
    In c (map (fun x => Sim.connection (fst (fst x)) (snd (fst x)) (snd x))
            cids) ->
    never_throws (sendFn c) /\ never_throws (closeFn c).
Proof.
  intros c Hin. apply in_map_iff in Hin as [x [<- _]].
  split; intros a w; reflexivity.
Qed.

(** X3, witness: [c2] is registered next to [c1] and removed again. *)
Lemma X3_witness :
  JsMap.has "c2" (connections (fst Sim.one_client)) = false /\
  over_quota (fst Sim.one_client) (Some "u1") = None /\
  exists c r1,
    Sim.register "c2" (Some "u1") None Sim.one_client
    = (Returned c, (r1, Sim.boot)) /\
    removeConnection "c2" r1 = fst Sim.one_client.
Proof.
  split; [reflexivity|]. split; [reflexivity|].
  destruct (sim_run_sound [Sim.connect "c1" (Some "u1") None] 2 eq_refl)
    as [Hloose Hsound].
  exact (X3_add_then_remove_restores Sim.Date_now Sim.boot "c2"
           (Sim.socket_send "c2") (Sim.socket_end "c2") (Some "u1") None
           Hsound (inv_user_nonempty Hloose) (inv_channel_nonempty Hloose)
           eq_refl eq_refl).
Defined.

(** X5, witness: after the session two connections carry user [u2]. *)
Lemma X5_witness :
  fresh_ids Sim.Date_now Sim.session (Sim.fresh_manager 2) = true /\
  getUserConnectionCount
    (fst (run Sim.Date_now Sim.session (Sim.fresh_manager 2))) "u2"
  = 2.
Proof.
  split; [reflexivity|].
  exact (proj1 (X5_counters_count_records Sim.Date_now 2 Sim.boot
                  Sim.session "u2" eq_refl)).
Defined.

(** X6, witness: [sendToUser("u1", m)] reaches the two connections that
    [getUserConnectionCount("u1")] counts. *)
Lemma X6_witness :
  hands_to_sendFn Sim.wsFrame /\
  fst (sendToUser Sim.wsFrame "u1" Sim.note Sim.three_clients)
  = Returned (getUserConnectionCount (fst Sim.three_clients) "u1").
Proof.
  assert (Henc : hands_to_sendFn Sim.wsFrame)
    by (intros sf m w; eexists; reflexivity).
  split; [exact Henc|].
  destruct (sim_run_sound
              [Sim.connect "c1" (Some "u1") None;
               Sim.connect "c2" (Some "u1") None;
               Sim.connect "c3" (Some "u2") None] 10 eq_refl)
    as [_ Hsound].
  assert (Hok : forall c,
            In c (JsMap.values (connections (fst Sim.three_clients))) ->
            never_throws (sendFn c)).
  { intros c Hin.
    apply (sim_sockets_never_throw
             [("c1", Some "u1", None); ("c2", Some "u1", None);
              ("c3", Some "u2", None)] c Hin). }
  exact (proj1 (X6_publish_counts_match_counters Henc
                  (r := fst Sim.three_clients) (snd Sim.three_clients)
                  Sim.note "u1" Hsound Hok)).
Defined.

(** X8, witness: [closeAll] after the session ends the three sockets in
    the order of registration and leaves a new registry. *)
Lemma X8_witness :
  fresh_ids Sim.Date_now Sim.session (Sim.fresh_manager 2) = true /\
  fst (snd (closeAll Sim.no_args
              (run Sim.Date_now Sim.session (Sim.fresh_manager 2))))
  = new_registry Sim.World WS.CloseArgs 2 /\
  Sim.wire
    (snd (snd (closeAll Sim.no_args
                 (run Sim.Date_now Sim.session (Sim.fresh_manager 2)))))
  = [Sim.Ended "c2"; Sim.Ended "c3"; Sim.Ended "c1"].
Proof.
  split; [reflexivity|].
  assert (Hok : forall c,
            In c (JsMap.values
                    (connections
                       (fst (run Sim.Date_now Sim.session
                               (Sim.fresh_manager 2))))) ->
            never_throws (closeFn c)).
  { intros c Hin.
    apply (sim_sockets_never_throw
             [("c2", Some "u1", None); ("c3", Some "u2", Some "x");
              ("c1", Some "u2", None)] c Hin). }
  pose proof (X8_closeAll_empties_the_registry Sim.Date_now 2 Sim.boot
                Sim.session Sim.no_args eq_refl Hok) as Hclose.
  split.
  - exact (f_equal (fun res => fst (snd res)) Hclose).
  - exact (f_equal (fun res => Sim.wire (snd (snd res))) Hclose).
Defined.


(** X10, witness: the handler registered for [chat:send] gets the chat
    frame (it throws, and its error is reported). *)
Lemma X10_witness :
  (Z.of_nat (utf16_length Sim.chat_text)
   <= WS.maxMessageSize (snd (WS.new_manager Sim.World Sim.defaults)))%Z /\
  WS.handleMessage Sim.Date_now Sim.JSON_parse Sim.JSON_stringify
    (Sim.chat_only Sim.defaults) "c1" Sim.chat_text Sim.one_client
  = (Returned tt,
     Sim.sent_on "c1" (WS.error_frame (JsString "boom")) Sim.one_client).
Proof.
  assert (Hfits : (Z.of_nat (utf16_length Sim.chat_text)
                   <= WS.maxMessageSize
                        (snd (WS.new_manager Sim.World Sim.defaults)))%Z)
    by (vm_compute; discriminate).
  split; [exact Hfits|].
  assert (Hname : "chat:send" <> "") by discriminate.
  exact (proj1 (@X10_onMessage_last_handler_runs Sim.World Sim.Date_now
                  Sim.JSON_parse Sim.JSON_stringify
                  (snd (WS.new_manager Sim.World Sim.defaults))
                  "chat:send" Sim.failing_handler "c1"
                  (Sim.connection "c1" (Some "u1") None)
                  Sim.chat_text Sim.one_client Sim.chat_frame
                  eq_refl eq_refl eq_refl Hname Hfits)).
Defined.

(** X11, witness: a frame without [type] is answered by [Message type is
    required], and the frame [{"type":{"toString":1}}] by the message of
    the [TypeError] of the template literal. *)
Lemma X11_witness :
  getConnection (fst Sim.one_client) "c1"
  = Some (Sim.connection "c1" (Some "u1") None) /\
  Sim.handle Sim.defaults "c1" (Sim.JSON_stringify Sim.untyped_frame)
    Sim.one_client
  = (Returned tt,
     Sim.sent_on "c1" (WS.error_frame (JsString "Message type is required"))
       Sim.one_client) /\
  Sim.handle Sim.defaults "c1" (Sim.JSON_stringify Sim.method_frame)
    Sim.one_client
  = (Returned tt,
     Sim.sent_on "c1"
       (WS.error_frame (JsString "Cannot convert object to primitive value"))
       Sim.one_client).
Proof.
  pose proof (fun raw =>
    @X11_frames_that_reach_no_handler Sim.World Sim.Date_now
      Sim.JSON_parse Sim.JSON_stringify
      (Sim.dispatcher_of Sim.defaults) "c1"
      (Sim.connection "c1" (Some "u1") None) raw Sim.one_client eq_refl)
    as Hlaw.
  split; [reflexivity|]. split.
  - destruct (Hlaw (Sim.JSON_stringify Sim.untyped_frame))
      as (_ & _ & Huntyped & _).
    exact (Huntyped Sim.untyped_frame JsUndefined eq_refl eq_refl eq_refl).
  - destruct (Hlaw (Sim.JSON_stringify Sim.method_frame))
      as (_ & _ & _ & Hother).
    assert (Hfits : (Z.of_nat (utf16_length
                                 (Sim.JSON_stringify Sim.method_frame))
                     <= WS.maxMessageSize
                          (Sim.dispatcher_of Sim.defaults))%Z)
      by (vm_compute; discriminate).
    assert (Hobject : forall s,
              JsObject [("toString", JsNumber 1)] <> JsString s)
      by discriminate.
    exact (proj2 (Hother Sim.method_frame
                    (JsObject [("toString", JsNumber 1)])
                    eq_refl eq_refl eq_refl Hobject Hfits)
             not_primitive eq_refl).
Defined.

(** X12, witness: with a quota of zero a user's connection is rejected on
    a manager that holds an anonymous connection only. *)
Lemma X12_witness :
  WebSocketManagerOptions.maxConnectionsPerUser Sim.zero_quota = Some 0%Z /\
  (0 <= 0)%Z /\
  returned
    (fst (Sim.register "c2" (Some "u1") None
            (run Sim.Date_now [Sim.connect "c1" None None]
               (fst (WS.new_manager Sim.World Sim.zero_quota), Sim.boot))))
  = false.
Proof.
  split; [reflexivity|]. split; [lia|].
  destruct (X12_zero_quota_admits_no_user Sim.Date_now Sim.zero_quota
              Sim.boot [Sim.connect "c1" None None] eq_refl (Z.le_refl 0))
    as (_ & Hreject & _).
  assert (Hu : "u1" <> "") by discriminate.
  exact (f_equal (fun res => returned (fst res))
           (Hreject "c2" (Sim.socket_send "c2") (Sim.socket_end "c2")
              "u1" None Hu)).
Defined.
